(** * ndml: vectors, matrices and quaternions

    A shallow embedding of the header-only library [ndml]
    ([include/ndml/vec], [include/ndml/mat], [include/ndml/quat]) and the
    properties of its operations.

    The element type [T] of the C++ templates comes with its arithmetic
    operators as an instance of the class [Scalar].  Template parameters [N],
    [R], [C] are natural-number arguments.  References returned by the
    subscript operators are lenses into the object they point into;
    exceptions, calls to [std::terminate] and undefined behaviour are
    outcomes of a small error monad.  The model comes first, the properties
    of the operations after it, and runs of the definitions over the
    integers, the rationals and the binary64 floating-point numbers at the
    end. *)

From Stdlib Require Import Arith Lia List Bool ZArith QArith Qcanon Ring Field.
From Stdlib Require Import PrimFloat.
Import ListNotations.

Local Open Scope nat_scope.

Set Implicit Arguments.

(** ** Outcomes of a call *)

(** [out_of_range] is the exception thrown by the vector subscript operator,
    [terminate] what happens when an exception leaves a [noexcept] function,
    [undefined] an out-of-bounds [std::array] access. *)
Inductive failure : Type :=
| out_of_range
| terminate
| undefined.

Inductive outcome (A : Type) : Type :=
| Ok (a : A)
| Fail (f : failure).

Arguments Ok {A} a.
Arguments Fail {A} f.

Definition bind {A B : Type} (o : outcome A) (k : A -> outcome B) : outcome B :=
  match o with
  | Ok a => k a
  | Fail f => Fail f
  end.

Notation "v <- o ;; k" := (bind o (fun v => k))
  (at level 61, o at next level, right associativity).

(** An exception that escapes a [noexcept] function terminates the program. *)
Definition noexcept {A : Type} (o : outcome A) : outcome A :=
  match o with
  | Fail out_of_range => Fail terminate
  | _ => o
  end.

(** [for (std::size_t i = lo; i < hi; ++i) body], the loop state passed
    explicitly. *)
Fixpoint for_count {S : Type} (count i : nat) (body : nat -> S -> outcome S)
    (s : S) : outcome S :=
  match count with
  | O => Ok s
  | Datatypes.S n => s' <- body i s ;; for_count n (Datatypes.S i) body s'
  end.

Definition for_loop {S : Type} (lo hi : nat) (body : nat -> S -> outcome S)
    (s : S) : outcome S :=
  for_count (hi - lo) lo body s.

(** ** References *)

(** A reference to a part of type [A] inside an object of type [S]: the value
    it currently designates and what a write through it does to the object. *)
Record reference (S A : Type) : Type := mk_reference {
  deref : A;
  assign : A -> S
}.

(** ** std::array *)

Fixpoint array (A : Type) (n : nat) : Type :=
  match n with
  | O => unit
  | S k => (A * array A k)%type
  end.

Fixpoint array_fill {A : Type} (n : nat) (a : A) : array A n :=
  match n with
  | O => tt
  | S k => (a, array_fill k a)
  end.

(** [std::array::operator[]]: unchecked. *)
Fixpoint array_subscript {A : Type} (n : nat)
    : array A n -> nat -> outcome (reference (array A n) A) :=
  match n with
  | O => fun _ _ => Fail undefined
  | S k => fun arr i =>
      match i with
      | O => Ok (mk_reference (fst arr) (fun a => (a, snd arr)))
      | S j =>
          r <- array_subscript k (snd arr) j ;;
          Ok (mk_reference (deref r) (fun a => (fst arr, assign r a)))
      end
  end.

Fixpoint array_to_list {A : Type} (n : nat) : array A n -> list A :=
  match n with
  | O => fun _ => []
  | S k => fun arr => fst arr :: array_to_list k (snd arr)
  end.

(** Total read of an array position, [d] outside the array. *)
Definition array_at {A : Type} {n : nat} (d : A) (arr : array A n) (i : nat)
    : A :=
  nth i (array_to_list n arr) d.

(** ** The element type *)

(** What the templates ask of their element type [T]: value initialisation
    [T{}] (also written [T{0}]), [T{1}], and the arithmetic operators.

    The operators are total functions.  [div a b] is the value of [a / b]
    wherever the element type defines it; dividing an integer by zero is
    undefined behaviour in the source and has no counterpart here, so the
    properties of the operators [/] and [/=] are stated for divisors other
    than [zero].  Properties that rest on the laws of arithmetic ask for them
    explicitly: a commutative ring or a field.  Floating-point numbers
    satisfy neither, and the runs over binary64 at the end show where
    rounding breaks them. *)
Class Scalar (T : Type) : Type := {
  zero : T;
  one : T;
  add : T -> T -> T;
  mul : T -> T -> T;
  sub : T -> T -> T;
  div : T -> T -> T;
  opp : T -> T
}.

(** Instances used to run the definitions: the integers with truncating
    division, the rationals, and the binary64 floating-point numbers of
    [double], rounding to nearest. *)
Definition Z_scalar : Scalar Z := {|
  zero := 0%Z; one := 1%Z;
  add := Z.add; mul := Z.mul; sub := Z.sub; div := Z.quot; opp := Z.opp
|}.

Definition Qc_scalar : Scalar Qc := {|
  zero := Q2Qc 0; one := Q2Qc 1;
  add := Qcplus; mul := Qcmult; sub := Qcminus; div := Qcdiv; opp := Qcopp
|}.

Definition binary64_scalar : Scalar float := {|
  zero := 0%float; one := 1%float;
  add := PrimFloat.add; mul := PrimFloat.mul; sub := PrimFloat.sub;
  div := PrimFloat.div; opp := PrimFloat.opp
|}.

(** [ndml::meta::burn_t<std::integral_constant<std::size_t, I>>]. *)
Inductive burn_t (I : nat) : Type := burn.

(** Case analysis on a dimension between 1 and 4 and on the components of a
    vector of that dimension. *)
Ltac dim_cases N :=
  destruct N as [|[|[|[|[|N]]]]]; try lia.

Ltac vec_cases v :=
  let a := fresh "a" in let b := fresh "b" in
  let c := fresh "c" in let d := fresh "d" in
  destruct v as [a b c d]; cbv in a, b, c, d;
  repeat match goal with u : burn_t _ |- _ => destruct u end.

(** Decide the comparisons of indices that occur in the goal. *)
Ltac index_cases :=
  repeat match goal with
  | |- context [?a <? ?b] => destruct (Nat.ltb_spec a b)
  | |- context [?a =? ?b] => destruct (Nat.eqb_spec a b)
  end; simpl; try reflexivity; try lia.

(** Evaluate the calls in the goal down to the operators of [T]. *)
Ltac run := cbv -[zero one add mul sub div opp].

Section Ndml.

Context {T : Type} {scalar : Scalar T}.

(** [static_cast<T>(2)]. *)
Definition two : T := add one one.

(** ** vec.hpp *)

Definition component_type (N I : nat) : Type :=
  if I <? N then T else burn_t I.

Record vec (N : nat) : Type := mk_vec {
  x : component_type N 0;
  y : component_type N 1;
  z : component_type N 2;
  w : component_type N 3
}.

(** Value initialisation of a component: [T{}] or a burn instance. *)
Definition component_default (N I : nat) : component_type N I :=
  (if I <? N as b return (if b then T else burn_t I)
   then zero else burn I).

(** [constexpr vec() noexcept = default]. *)
Definition vec_default (N : nat) : vec N :=
  mk_vec N (component_default N 0) (component_default N 1)
         (component_default N 2) (component_default N 3).

(** [if constexpr (I < N) { return self.c; } else { [[fallthrough]]; }]:
    when the component is usable [ret] receives its value and the way to
    store into it, otherwise control falls through. *)
Definition if_constexpr_lt {N I : nat} {A : Type} (c : component_type N I)
    (ret : T -> (T -> component_type N I) -> A) (fallthrough : A) : A :=
  (if I <? N as b
     return (if b then T else burn_t I) ->
            (T -> (T -> if b then T else burn_t I) -> A) -> A
   then fun c ret => ret c (fun a => a)
   else fun _ _ => fallthrough) c ret.

(** [vec::operator[]] (vec.inl, 52-101). *)
Definition subscript {N : nat} (self : vec N) (i : nat)
    : outcome (reference (vec N) T) :=
  let default_ := Fail out_of_range in
  let case_3 :=
    if_constexpr_lt (w self)
      (fun a put => Ok (mk_reference a
         (fun b => mk_vec N (x self) (y self) (z self) (put b))))
      default_ in
  let case_2 :=
    if_constexpr_lt (z self)
      (fun a put => Ok (mk_reference a
         (fun b => mk_vec N (x self) (y self) (put b) (w self))))
      case_3 in
  let case_1 :=
    if_constexpr_lt (y self)
      (fun a put => Ok (mk_reference a
         (fun b => mk_vec N (x self) (put b) (z self) (w self))))
      case_2 in
  let case_0 :=
    if_constexpr_lt (x self)
      (fun a put => Ok (mk_reference a
         (fun b => mk_vec N (put b) (y self) (z self) (w self))))
      case_1 in
  match i with
  | 0 => case_0
  | 1 => case_1
  | 2 => case_2
  | 3 => case_3
  | _ => default_
  end.

(** The usable named components of a vector, in the order x, y, z, w. *)
Definition components {N : nat} (v : vec N) : list T :=
  if_constexpr_lt (x v) (fun a _ => [a]) [] ++
  if_constexpr_lt (y v) (fun a _ => [a]) [] ++
  if_constexpr_lt (z v) (fun a _ => [a]) [] ++
  if_constexpr_lt (w v) (fun a _ => [a]) [].

(** [vec(FromTs... components)]: the components are stored one after the
    other through the subscript operator, starting at index 0.  The
    requires-clause of the constructor admits at most [N] of them. *)
Fixpoint vec_init {N : nat} (self : vec N) (i : nat) (cs : list T)
    : outcome (vec N) :=
  match cs with
  | [] => Ok self
  | c :: rest => r <- subscript self i ;; vec_init (assign r c) (S i) rest
  end.

Definition vec_of (N : nat) (cs : list T) : outcome (vec N) :=
  noexcept (vec_init (vec_default N) 0 cs).

(** ** vec/operation.inl *)

(** [std::ranges::for_each(v, f)]: the iterator runs over positions 0..N and
    dereferences through the subscript operator; [f] gives the new value of
    the component it is handed. *)
Definition transform {N : nat} (v : vec N) (f : T -> T) : outcome (vec N) :=
  for_loop 0 N (fun i v => r <- subscript v i ;; Ok (assign r (f (deref r)))) v.

Definition zip_transform {N : nat} (lhs rhs : vec N) (f : T -> T -> T)
    : outcome (vec N) :=
  for_loop 0 N
    (fun i lhs =>
       l <- subscript lhs i ;;
       r <- subscript rhs i ;;
       Ok (assign l (f (deref l) (deref r))))
    lhs.

Definition dot {N : nat} (lhs rhs : vec N) : outcome T :=
  noexcept
    (for_loop 0 N
       (fun i s =>
          l <- subscript lhs i ;;
          r <- subscript rhs i ;;
          Ok (add s (mul (deref l) (deref r))))
       zero).

Definition cross (lhs rhs : vec 3) : outcome (vec 3) :=
  noexcept
    (vec_of 3
       [ sub (mul (y lhs) (z rhs)) (mul (z lhs) (y rhs));
         sub (mul (z lhs) (x rhs)) (mul (x lhs) (z rhs));
         sub (mul (x lhs) (y rhs)) (mul (y lhs) (x rhs)) ]).

Definition norm_squared {N : nat} (v : vec N) : outcome T :=
  noexcept (dot v v).

(** [operator+=], [operator-=] between vectors. *)
Definition vec_add_assign {N : nat} (lhs rhs : vec N) : outcome (vec N) :=
  noexcept (zip_transform lhs rhs add).

Definition vec_sub_assign {N : nat} (lhs rhs : vec N) : outcome (vec N) :=
  noexcept (zip_transform lhs rhs sub).

(** [operator*=], [operator/=] by a scalar. *)
Definition vec_scale_assign {N : nat} (v : vec N) (scale : T)
    : outcome (vec N) :=
  noexcept (transform v (fun component => mul component scale)).

Definition vec_div_assign {N : nat} (v : vec N) (scale : T)
    : outcome (vec N) :=
  noexcept (transform v (fun component => div component scale)).

(** Unary minus. *)
Definition vec_neg {N : nat} (v : vec N) : outcome (vec N) :=
  noexcept (transform v opp).

(** The binary operators copy the left operand and apply the assignment. *)
Definition vec_add {N : nat} (lhs rhs : vec N) : outcome (vec N) :=
  noexcept (vec_add_assign lhs rhs).

Definition vec_sub {N : nat} (lhs rhs : vec N) : outcome (vec N) :=
  noexcept (vec_sub_assign lhs rhs).

Definition vec_scale {N : nat} (v : vec N) (scale : T) : outcome (vec N) :=
  noexcept (vec_scale_assign v scale).

(** [operator*(scale, v)] returns [v * scale]. *)
Definition scale_vec {N : nat} (scale : T) (v : vec N) : outcome (vec N) :=
  noexcept (vec_scale v scale).

Definition vec_div {N : nat} (v : vec N) (scale : T) : outcome (vec N) :=
  noexcept (vec_div_assign v scale).

(** ** quat.hpp *)

(** [struct quat : vec<4, T>]. *)
Definition quat : Type := vec 4.

Definition quat_of (a b c d : T) : outcome quat :=
  noexcept (vec_of 4 [a; b; c; d]).

Definition conjugate (q : quat) : outcome quat :=
  noexcept (quat_of (opp (x q)) (opp (y q)) (opp (z q)) (w q)).

(** Hamilton product, [operator*(quat, quat)]. *)
Definition quat_mul (lhs rhs : quat) : outcome quat :=
  noexcept
    (quat_of
       (sub (add (add (mul (w lhs) (x rhs)) (mul (x lhs) (w rhs)))
                 (mul (y lhs) (z rhs)))
            (mul (z lhs) (y rhs)))
       (add (add (sub (mul (w lhs) (y rhs)) (mul (x lhs) (z rhs)))
                 (mul (y lhs) (w rhs)))
            (mul (z lhs) (x rhs)))
       (add (sub (add (mul (w lhs) (z rhs)) (mul (x lhs) (y rhs)))
                 (mul (y lhs) (x rhs)))
            (mul (z lhs) (w rhs)))
       (sub (sub (sub (mul (w lhs) (w rhs)) (mul (x lhs) (x rhs)))
                 (mul (y lhs) (y rhs)))
            (mul (z lhs) (z rhs)))).

(** [operator*=(quat&, quat const&)]: product, then assignment. *)
Definition quat_mul_assign (lhs rhs : quat) : outcome quat :=
  noexcept (quat_mul lhs rhs).

(** Conjugation of a vector, [operator*(quat, vec<3, T>)]. *)
Definition quat_mul_vec (q : quat) (v : vec 3) : outcome (vec 3) :=
  noexcept
    (imag <- vec_of 3 [x q; y q; z q] ;;
     ort <- cross imag v ;;
     a <- scale_vec (w q) ort ;;
     b <- cross imag ort ;;
     c <- vec_add a b ;;
     d <- scale_vec two c ;;
     vec_add v d).

(** ** mat.hpp *)

(** Column-major: [columns_] is a [std::array<vec<R, T>, C>]. *)
Record mat (R C : nat) : Type := mk_mat {
  columns_ : array (vec R) C
}.

Arguments mk_mat {R C} columns_.

(** [constexpr mat() noexcept = default]: the zero matrix. *)
Definition mat_default (R C : nat) : mat R C :=
  mk_mat (array_fill C (vec_default R)).

(** [mat(FromTs... columns)]. *)
Definition mat_of_columns {R C : nat} (columns : array (vec R) C) : mat R C :=
  mk_mat columns.

(** Column subscript, [self.columns_[column]]. *)
Definition mat_subscript {R C : nat} (self : mat R C) (column : nat)
    : outcome (reference (mat R C) (vec R)) :=
  noexcept
    (c <- array_subscript C (columns_ self) column ;;
     Ok (mk_reference (deref c) (fun v => mk_mat (assign c v)))).

(** Element subscript, [self[column][row]]. *)
Definition mat_subscript2 {R C : nat} (self : mat R C) (column row : nat)
    : outcome (reference (mat R C) T) :=
  noexcept
    (c <- mat_subscript self column ;;
     e <- subscript (deref c) row ;;
     Ok (mk_reference (deref e) (fun a => assign c (assign e a)))).

(** [mat(FromT const& scale)] (mat.inl, 15-24). *)
Definition mat_of_scale (R C : nat) (scale : T) : outcome (mat R C) :=
  noexcept
    (for_loop 0 C
       (fun i this => e <- mat_subscript2 this i i ;; Ok (assign e scale))
       (mat_default R C)).

(** ** mat/operation.inl *)

Definition transpose {R C : nat} (m : mat R C) : outcome (mat C R) :=
  noexcept
    (for_loop 0 C
       (fun i t =>
          for_loop 0 R
            (fun j t =>
               dst <- mat_subscript2 t j i ;;
               src <- mat_subscript2 m i j ;;
               Ok (assign dst (deref src)))
            t)
       (mat_default C R)).

Definition determinant_1 (m : mat 1 1) : outcome T :=
  noexcept (e <- mat_subscript2 m 0 0 ;; Ok (deref e)).

Definition determinant_2 (m : mat 2 2) : outcome T :=
  noexcept
    (m0 <- mat_subscript m 0 ;;
     m1 <- mat_subscript m 1 ;;
     m00 <- subscript (deref m0) 0 ;;
     m11 <- subscript (deref m1) 1 ;;
     m01 <- subscript (deref m0) 1 ;;
     m10 <- subscript (deref m1) 0 ;;
     Ok (sub (mul (deref m00) (deref m11)) (mul (deref m01) (deref m10)))).

Definition determinant_3 (m : mat 3 3) : outcome T :=
  noexcept
    (m0 <- mat_subscript m 0 ;;
     m00 <- subscript (deref m0) 0 ;;
     m01 <- subscript (deref m0) 1 ;;
     m02 <- subscript (deref m0) 2 ;;
     m1 <- mat_subscript m 1 ;;
     m10 <- subscript (deref m1) 0 ;;
     m11 <- subscript (deref m1) 1 ;;
     m12 <- subscript (deref m1) 2 ;;
     m2 <- mat_subscript m 2 ;;
     m20 <- subscript (deref m2) 0 ;;
     m21 <- subscript (deref m2) 1 ;;
     m22 <- subscript (deref m2) 2 ;;
     let m00 := deref m00 in let m01 := deref m01 in let m02 := deref m02 in
     let m10 := deref m10 in let m11 := deref m11 in let m12 := deref m12 in
     let m20 := deref m20 in let m21 := deref m21 in let m22 := deref m22 in
     Ok (sub (sub (sub (add (add (mul (mul m02 m10) m21)
                                 (mul (mul m00 m11) m22))
                            (mul (mul m01 m12) m20))
                       (mul (mul m01 m10) m22))
                  (mul (mul m02 m11) m20))
             (mul (mul m00 m12) m21))).

(** [std::ranges::for_each] over the columns of a matrix. *)
Fixpoint array_for_each {A : Type} (n : nat) (f : A -> outcome A)
    : array A n -> outcome (array A n) :=
  match n with
  | O => fun _ => Ok tt
  | S k => fun arr =>
      a <- f (fst arr) ;;
      rest <- array_for_each k f (snd arr) ;;
      Ok (a, rest)
  end.

(** [operator/=(mat&, value_type const&)] and [operator/]. *)
Definition mat_div_assign {R C : nat} (m : mat R C) (scale : T)
    : outcome (mat R C) :=
  noexcept
    (cols <- array_for_each C (fun column => vec_div_assign column scale)
               (columns_ m) ;;
     Ok (mk_mat cols)).

Definition mat_div {R C : nat} (m : mat R C) (scale : T) : outcome (mat R C) :=
  noexcept (mat_div_assign m scale).

(** [inverse(mat<2, 2, T> const&)] (mat.inl, 424-442). *)
Definition inverse_2 (m : mat 2 2) : outcome (mat 2 2) :=
  noexcept
    (m0 <- mat_subscript m 0 ;;
     m00 <- subscript (deref m0) 0 ;;
     m01 <- subscript (deref m0) 1 ;;
     m1 <- mat_subscript m 1 ;;
     m10 <- subscript (deref m1) 0 ;;
     m11 <- subscript (deref m1) 1 ;;
     let m00 := deref m00 in let m01 := deref m01 in
     let m10 := deref m10 in let m11 := deref m11 in
     let det := sub (mul m00 m11) (mul m01 m11) in
     c0 <- vec_of 2 [m11; opp m01] ;;
     c1 <- vec_of 2 [opp m10; m00] ;;
     mat_div (mat_of_columns (C := 2) (c0, (c1, tt))) det).

(** [operator*(mat<N, M, T>, mat<M, K, T>)] (mat.inl, 586-603). *)
Definition mat_mul {N M K : nat} (lhs : mat N M) (rhs : mat M K)
    : outcome (mat N K) :=
  noexcept
    (for_loop 0 N
       (fun i p =>
          for_loop 0 K
            (fun j p =>
               for_loop 0 M
                 (fun k p =>
                    acc <- mat_subscript2 p j i ;;
                    l <- mat_subscript2 lhs k i ;;
                    r <- mat_subscript2 rhs j k ;;
                    Ok (assign acc (add (deref acc) (mul (deref l) (deref r)))))
                 p)
            p)
       (mat_default N K)).

(** [operator*=(mat<R, C, T>&, mat<R, C, T> const&)]: [lhs = lhs * rhs], which
    is well-typed for square matrices only. *)
Definition mat_mul_assign {N : nat} (lhs rhs : mat N N) : outcome (mat N N) :=
  noexcept (mat_mul lhs rhs).

(** [operator*(mat<N, M, T>, vec<M, T>)] (mat.inl, 605-619). *)
Definition mat_mul_vec {N M : nat} (m : mat N M) (v : vec M) : outcome (vec N) :=
  noexcept
    (for_loop 0 N
       (fun i p =>
          for_loop 0 M
            (fun k p =>
               acc <- subscript p i ;;
               e <- mat_subscript2 m k i ;;
               c <- subscript v k ;;
               Ok (assign acc (add (deref acc) (mul (deref e) (deref c)))))
            p)
       (vec_default N)).

(** ** mat/transform.inl *)

Definition translation {N : nat} (v : vec N) : outcome (mat (N + 1) (N + 1)) :=
  noexcept
    (t <- mat_of_scale (N + 1) (N + 1) one ;;
     for_loop 0 N
       (fun i t =>
          col <- mat_subscript t N ;;
          dst <- subscript (deref col) i ;;
          src <- subscript v i ;;
          Ok (assign col (assign dst (deref src))))
       t).

(** ** quat/operation.inl: axis and angle *)

Section AxisAngle.

(** What [axis_angle] takes from [<cmath>] and [<limits>]: the type
    [double]; [std::sqrt] of a [T] as a [double]; the machine epsilon
    [std::numeric_limits<T>::epsilon()] and the comparison of a [double]
    with it; the conversion of a [double] to [T]; [std::atan2] of a [double]
    and a [T]; and the doubling [2 * _] of a [double]. *)
Variable double : Type.
Variable sqrt : T -> double.
Variable epsilon : T.
Variable le_double : double -> T -> bool.
Variable of_double : double -> T.
Variable atan2 : double -> T -> double.
Variable twice : double -> double.

(** [norm(v)]: [std::sqrt(norm_squared(v))]. *)
Definition norm {N : nat} (v : vec N) : outcome double :=
  noexcept (n <- norm_squared v ;; Ok (sqrt n)).

(** [axis_angle(quat<T> const&)] (quat.hpp, 75-88); [return {}] is the
    value-initialised pair. *)
Definition axis_angle (q : quat) : outcome (vec 3 * T) :=
  noexcept
    (imag <- vec_of 3 [x q; y q; z q] ;;
     imag_norm <- norm imag ;;
     if le_double imag_norm epsilon
     then Ok (vec_default 3, zero)
     else
       axis <- vec_div imag (of_double imag_norm) ;;
       Ok (axis, of_double (twice (atan2 imag_norm (w q))))).

End AxisAngle.

(** ** vec.inl: the other constructors and conversions *)

(** [vec(FromT const& scale)]: [std::ranges::fill] over the components. *)
Definition vec_of_scale (N : nat) (scale : T) : outcome (vec N) :=
  noexcept
    (for_loop 0 N (fun i this => r <- subscript this i ;; Ok (assign r scale))
       (vec_default N)).

Section Truth.

(** Contextual conversion of a component to [bool], and [operator==] of the
    element type. *)
Variable truthy : T -> bool.
Variable eqb : T -> T -> bool.

(** [std::ranges::any_of(self, std::identity{})], from position [i] on. *)
Fixpoint any_of_from {N : nat} (self : vec N) (count i : nat) : outcome bool :=
  match count with
  | O => Ok false
  | Datatypes.S n =>
      r <- subscript self i ;;
      if truthy (deref r) then Ok true
      else any_of_from self n (Datatypes.S i)
  end.

(** [explicit operator bool]. *)
Definition vec_to_bool {N : nat} (self : vec N) : outcome bool :=
  noexcept (any_of_from self N 0).

(** [std::ranges::equal(lhs, rhs)], from position [i] on. *)
Fixpoint equal_from {N : nat} (lhs rhs : vec N) (count i : nat)
    : outcome bool :=
  match count with
  | O => Ok true
  | Datatypes.S n =>
      l <- subscript lhs i ;;
      r <- subscript rhs i ;;
      if eqb (deref l) (deref r) then equal_from lhs rhs n (Datatypes.S i)
      else Ok false
  end.

(** [operator==] and [operator!=] of vectors. *)
Definition vec_eq {N : nat} (lhs rhs : vec N) : outcome bool :=
  noexcept (equal_from lhs rhs N 0).

Definition vec_neq {N : nat} (lhs rhs : vec N) : outcome bool :=
  noexcept (b <- vec_eq lhs rhs ;; Ok (negb b)).

(** [std::ranges::equal] over the columns of two matrices. *)
Fixpoint array_equal {R : nat} (n : nat)
    : array (vec R) n -> array (vec R) n -> outcome bool :=
  match n with
  | O => fun _ _ => Ok true
  | Datatypes.S k => fun lhs rhs =>
      b <- vec_eq (fst lhs) (fst rhs) ;;
      if b then array_equal k (snd lhs) (snd rhs) else Ok false
  end.

End Truth.

(** [swap(vec&, vec&)]: [std::ranges::swap_ranges] over the components; the
    state is the pair of the two vectors. *)
Definition vec_swap {N : nat} (lhs rhs : vec N) : outcome (vec N * vec N) :=
  noexcept
    (for_loop 0 N
       (fun i st =>
          l <- subscript (fst st) i ;;
          r <- subscript (snd st) i ;;
          Ok (assign l (deref r), assign r (deref l)))
       (lhs, rhs)).

(** ** vec/operation.inl: the other operations *)

(** [operator*=], [operator/=] between vectors, and the binary forms. *)
Definition vec_mul_assign {N : nat} (lhs rhs : vec N) : outcome (vec N) :=
  noexcept (zip_transform lhs rhs mul).

Definition vec_quot_assign {N : nat} (lhs rhs : vec N) : outcome (vec N) :=
  noexcept (zip_transform lhs rhs div).

Definition vec_mul {N : nat} (lhs rhs : vec N) : outcome (vec N) :=
  noexcept (vec_mul_assign lhs rhs).

Definition vec_quot {N : nat} (lhs rhs : vec N) : outcome (vec N) :=
  noexcept (vec_quot_assign lhs rhs).

(** Unary plus: [component = +component]. *)
Definition vec_pos {N : nat} (v : vec N) : outcome (vec N) :=
  noexcept (transform v (fun component => component)).

(** [projection(v, axis)]: [axis * dot(v, axis) / dot(axis, axis)]. *)
Definition projection {N : nat} (v axis : vec N) : outcome (vec N) :=
  noexcept
    (num <- dot v axis ;;
     scaled <- vec_scale axis num ;;
     den <- dot axis axis ;;
     vec_div scaled den).

(** [reciprocal(v)]: every component [c] becomes [static_cast<T>(1) / c]. *)
Definition reciprocal {N : nat} (v : vec N) : outcome (vec N) :=
  noexcept (transform v (fun component => div one component)).

(** ** quat/operation.inl: inverse *)

(** [quat(vec<4, T>)]. *)
Definition quat_of_vec (v : vec 4) : quat := v.

(** [inverse(quat)]: [conjugate(q) / norm_squared(q)]. *)
Definition quat_inverse (q : quat) : outcome quat :=
  noexcept
    (c <- conjugate q ;;
     n <- norm_squared q ;;
     v <- vec_div c n ;;
     Ok (quat_of_vec v)).

(** ** mat/operation.inl: the other operations *)

(** [row_echelon_form] (mat.inl, 347-366). *)
Definition row_echelon_form {N : nat} (m : mat N N) : outcome (mat N N) :=
  noexcept
    (for_loop 0 N
       (fun i ref =>
          for_loop (i + 1) N
            (fun j ref =>
               a <- mat_subscript2 ref i j ;;
               p <- mat_subscript2 ref i i ;;
               let scale := div (deref a) (deref p) in
               for_loop i N
                 (fun k ref =>
                    dst <- mat_subscript2 ref k j ;;
                    src <- mat_subscript2 ref k i ;;
                    Ok (assign dst (sub (deref dst) (mul scale (deref src)))))
                 ref)
            ref)
       m).

(** The generic [determinant] (mat.inl, 404-416): the product of the
    diagonal of the row echelon form. *)
Definition determinant_N {N : nat} (m : mat N N) : outcome T :=
  noexcept
    (ref <- row_echelon_form m ;;
     for_loop 0 N
       (fun i det => e <- mat_subscript2 ref i i ;; Ok (mul det (deref e)))
       one).

(** The generic [inverse] (mat.inl, 444-478): Gauss-Jordan elimination on
    the pair of the running inverse and the matrix being reduced. *)
Definition inverse_N {N : nat} (m : mat N N) : outcome (mat N N) :=
  noexcept
    (inv0 <- mat_of_scale N N one ;;
     st <- for_loop 0 N
       (fun i st =>
          p <- mat_subscript2 (snd st) i i ;;
          let pivot := deref p in
          st <- for_loop 0 N
            (fun j st =>
               a <- mat_subscript2 (snd st) j i ;;
               let id := assign a (div (deref a) pivot) in
               b <- mat_subscript2 (fst st) j i ;;
               let inv := assign b (div (deref b) pivot) in
               Ok (inv, id))
            st ;;
          for_loop 0 N
            (fun j st =>
               if i =? j then Ok st
               else
                 s <- mat_subscript2 (snd st) i j ;;
                 let scale := deref s in
                 for_loop 0 N
                   (fun k st =>
                      dst <- mat_subscript2 (snd st) k j ;;
                      src <- mat_subscript2 (snd st) k i ;;
                      let id :=
                        assign dst (sub (deref dst) (mul scale (deref src))) in
                      dst' <- mat_subscript2 (fst st) k j ;;
                      src' <- mat_subscript2 (fst st) k i ;;
                      let inv :=
                        assign dst'
                          (sub (deref dst') (mul scale (deref src'))) in
                      Ok (inv, id))
                   st)
            st)
       (inv0, m) ;;
     Ok (fst st)).

(** [trace] (mat.inl, 480-491). *)
Definition trace {N : nat} (m : mat N N) : outcome T :=
  noexcept
    (for_loop 0 N
       (fun i tr => e <- mat_subscript2 m i i ;; Ok (add tr (deref e)))
       zero).

(** [operator+=], [operator-=] of matrices: column by column. *)
Definition mat_add_assign {R C : nat} (lhs rhs : mat R C) : outcome (mat R C) :=
  noexcept
    (for_loop 0 C
       (fun i lhs =>
          l <- mat_subscript lhs i ;;
          r <- mat_subscript rhs i ;;
          sum <- vec_add_assign (deref l) (deref r) ;;
          Ok (assign l sum))
       lhs).

Definition mat_sub_assign {R C : nat} (lhs rhs : mat R C) : outcome (mat R C) :=
  noexcept
    (for_loop 0 C
       (fun i lhs =>
          l <- mat_subscript lhs i ;;
          r <- mat_subscript rhs i ;;
          diff <- vec_sub_assign (deref l) (deref r) ;;
          Ok (assign l diff))
       lhs).

(** [operator*=(mat&, value_type const&)]. *)
Definition mat_scale_assign {R C : nat} (m : mat R C) (scale : T)
    : outcome (mat R C) :=
  noexcept
    (cols <- array_for_each C (fun column => vec_scale_assign column scale)
               (columns_ m) ;;
     Ok (mk_mat cols)).

(** Unary plus and minus: [column = +column], [column = -column]. *)
Definition mat_pos {R C : nat} (m : mat R C) : outcome (mat R C) :=
  noexcept
    (cols <- array_for_each C (fun column => vec_pos column) (columns_ m) ;;
     Ok (mk_mat cols)).

Definition mat_neg {R C : nat} (m : mat R C) : outcome (mat R C) :=
  noexcept
    (cols <- array_for_each C (fun column => vec_neg column) (columns_ m) ;;
     Ok (mk_mat cols)).

Definition mat_add {R C : nat} (lhs rhs : mat R C) : outcome (mat R C) :=
  noexcept (mat_add_assign lhs rhs).

Definition mat_sub {R C : nat} (lhs rhs : mat R C) : outcome (mat R C) :=
  noexcept (mat_sub_assign lhs rhs).

(** [operator*(mat, scale)] and [operator*(scale, mat)]. *)
Definition mat_scale {R C : nat} (m : mat R C) (scale : T) : outcome (mat R C) :=
  noexcept (mat_scale_assign m scale).

Definition scale_mat {R C : nat} (scale : T) (m : mat R C) : outcome (mat R C) :=
  noexcept (mat_scale m scale).

(** [operator==], [operator!=] of matrices. *)
Definition mat_eq (eqb : T -> T -> bool) {R C : nat} (lhs rhs : mat R C)
    : outcome bool :=
  noexcept (array_equal eqb C (columns_ lhs) (columns_ rhs)).

Definition mat_neq (eqb : T -> T -> bool) {R C : nat} (lhs rhs : mat R C)
    : outcome bool :=
  noexcept (b <- mat_eq eqb lhs rhs ;; Ok (negb b)).

(** ** mat/transform.inl: the other builders *)

Definition cross_matrix (v : vec 3) : outcome (mat 3 3) :=
  noexcept
    (v0 <- subscript v 0 ;;
     v1 <- subscript v 1 ;;
     v2 <- subscript v 2 ;;
     let v0 := deref v0 in let v1 := deref v1 in let v2 := deref v2 in
     c0 <- vec_of 3 [zero; v2; opp v1] ;;
     c1 <- vec_of 3 [opp v2; zero; v0] ;;
     c2 <- vec_of 3 [v1; opp v0; zero] ;;
     Ok (mat_of_columns (C := 3) (c0, (c1, (c2, tt))))).

(** [outer_product(vec<N, T>, vec<M, T>) -> mat<M, N, T>]. *)
Definition outer_product {N M : nat} (lhs : vec N) (rhs : vec M)
    : outcome (mat M N) :=
  noexcept
    (for_loop 0 N
       (fun row m =>
          for_loop 0 M
            (fun col m =>
               dst <- mat_subscript2 m col row ;;
               l <- subscript lhs row ;;
               r <- subscript rhs col ;;
               Ok (assign dst (mul (deref l) (deref r))))
            m)
       (mat_default M N)).

(** [scale(vec<N, T>) -> mat<N + 1, N + 1, T>]. *)
Definition scale {N : nat} (v : vec N) : outcome (mat (N + 1) (N + 1)) :=
  noexcept
    (e <- mat_subscript2 (mat_default (N + 1) (N + 1)) N N ;;
     for_loop 0 N
       (fun i s =>
          dst <- mat_subscript2 s i i ;;
          src <- subscript v i ;;
          Ok (assign dst (deref src)))
       (assign e one)).

(** [ortho(left, right, bottom, up, near, far)]. *)
Definition ortho (left right bottom up near far : T) : outcome (mat 4 4) :=
  noexcept
    (let dx := sub right left in
     let dy := sub up bottom in
     let dz := sub far near in
     c0 <- vec_of 4 [div two dx; zero; zero; zero] ;;
     c1 <- vec_of 4 [zero; div two dy; zero; zero] ;;
     c2 <- vec_of 4 [zero; zero; div (opp two) dz; zero] ;;
     c3 <- vec_of 4 [div (opp (add right left)) dx;
                     div (opp (add up bottom)) dy;
                     div (opp (add far near)) dz; one] ;;
     Ok (mat_of_columns (C := 4) (c0, (c1, (c2, (c3, tt)))))).

(** ** Vectors and matrices as tables *)

(** Writing [a] at position [i] of a list. *)
Definition list_update (i : nat) (a : T) (l : list T) : list T :=
  firstn i l ++ a :: skipn (S i) l.

(** Total read of a component, [zero] outside the vector. *)
Definition vec_at {N : nat} (v : vec N) (i : nat) : T :=
  nth i (components v) zero.

(** Total read of the entry in column [c], row [r]. *)
Definition entry {R C : nat} (m : mat R C) (c r : nat) : T :=
  vec_at (array_at (vec_default R) (columns_ m) c) r.

(** The sum of [f 0], ..., [f (n - 1)], added from the left starting at
    [zero]. *)
Fixpoint big_sum (n : nat) (f : nat -> T) : T :=
  match n with
  | O => zero
  | Datatypes.S k => add (big_sum k f) (f k)
  end.

(** Index [i] of a row or column once row or column [k] is deleted. *)
Definition skip (k i : nat) : nat := if i <? k then i else Datatypes.S i.

(** The 4-by-4 matrix [m] without column [c] and row [r]. *)
Definition minor_4 (m : mat 4 4) (c r : nat) : mat 3 3 :=
  let col j :=
    mk_vec 3 (entry m (skip c j) (skip r 0) : T)
             (entry m (skip c j) (skip r 1) : T)
             (entry m (skip c j) (skip r 2) : T) (burn 3) in
  mat_of_columns (C := 3) (col 0, (col 1, (col 2, tt))).

(** The determinant of a 4-by-4 matrix by cofactor expansion along its
    first column, with [determinant_3] on the minors. *)
Definition determinant_4 (m : mat 4 4) : outcome T :=
  c0 <- determinant_3 (minor_4 m 0 0) ;;
  c1 <- determinant_3 (minor_4 m 0 1) ;;
  c2 <- determinant_3 (minor_4 m 0 2) ;;
  c3 <- determinant_3 (minor_4 m 0 3) ;;
  Ok (sub (add (sub (mul (entry m 0 0) c0) (mul (entry m 0 1) c1))
               (mul (entry m 0 2) c2))
          (mul (entry m 0 3) c3)).

End Ndml.

(** Take a matrix of known size apart into the components of its columns. *)
Ltac mat_cases m :=
  let cols := fresh "cols" in
  destruct m as [cols]; simpl in cols;
  repeat match goal with
  | p : (_ * _)%type |- _ => destruct p
  | u : unit |- _ => destruct u
  end;
  repeat match goal with
  | v : @vec _ _ |- _ => vec_cases v
  end.

(** Reduce an equation between results to equations between scalars. *)
Ltac componentwise :=
  repeat match goal with
  | |- Ok _ = Ok _ => f_equal
  | |- @mk_mat _ _ _ _ = @mk_mat _ _ _ _ => f_equal
  | |- (_, _) = (_, _) => f_equal
  | |- @mk_vec _ _ _ _ _ _ = @mk_vec _ _ _ _ _ _ => f_equal
  end.

(** ** Converting constructors *)

Section Conversion.

Context {FromT T : Type} {scalar : Scalar T}.

(** [static_cast<value_type>] of a component. *)
Variable cast : FromT -> T.

(** [vec(vec<FromN, FromT> const&)], for [FromN <= N]. *)
Definition vec_convert {FromN : nat} (N : nat) (v : @vec FromT FromN)
    : outcome (@vec T N) :=
  noexcept
    (for_loop 0 FromN
       (fun i this =>
          dst <- subscript this i ;;
          src <- subscript v i ;;
          Ok (assign dst (cast (deref src))))
       (vec_default N)).

(** [mat(mat<FromR, FromC, FromT> const&)], for [FromR <= R] and
    [FromC <= C]: column by column through the conversion of vectors. *)
Definition mat_convert {FromR FromC : nat} (R C : nat)
    (m : @mat FromT FromR FromC) : outcome (@mat T R C) :=
  noexcept
    (for_loop 0 FromC
       (fun i this =>
          dst <- mat_subscript this i ;;
          src <- mat_subscript m i ;;
          column <- vec_convert R (deref src) ;;
          Ok (assign dst column))
       (mat_default R C)).

End Conversion.

(** ** Rotations *)

Section Rotation.

Context {T : Type} {scalar : Scalar T}.

(** [std::cos] and [std::sin] on the element type. *)
Variable cos : T -> T.
Variable sin : T -> T.

(** [rotation(T const& angle)], the rotation of the plane in homogeneous
    coordinates. *)
Definition rotation_2d (angle : T) : outcome (@mat T 3 3) :=
  noexcept
    (let cos_angle := cos angle in
     let sin_angle := sin angle in
     c0 <- vec_of 3 [cos_angle; sin_angle; zero] ;;
     c1 <- vec_of 3 [opp sin_angle; cos_angle; zero] ;;
     c2 <- vec_of 3 [zero; zero; one] ;;
     Ok (mat_of_columns (C := 3) (c0, (c1, (c2, tt))))).

(** [rotation(vec<3, T> const& axis, angle)]:
    [mat<3, 3, T>{1} + (T{1} - cos_angle) * cross * cross + sin_angle * cross]
    converted to 4 by 4, then [r[3, 3] = T{1}]. *)
Definition rotation_axis_angle (axis : @vec T 3) (angle : T)
    : outcome (@mat T 4 4) :=
  noexcept
    (let cos_angle := cos angle in
     let sin_angle := sin angle in
     cross <- cross_matrix axis ;;
     id3 <- mat_of_scale 3 3 one ;;
     a <- scale_mat (sub one cos_angle) cross ;;
     b <- mat_mul a cross ;;
     c <- mat_add id3 b ;;
     d <- scale_mat sin_angle cross ;;
     e <- mat_add c d ;;
     r <- mat_convert (fun t : T => t) 4 4 e ;;
     corner <- mat_subscript2 r 3 3 ;;
     Ok (assign corner one)).

(** [versor(axis, angle)] (quat/transform.inl). *)
Definition versor (axis : @vec T 3) (angle : T) : outcome (@quat T) :=
  noexcept
    (let half := div one two in
     let half_angle := mul half angle in
     v' <- vec_scale axis (sin half_angle) ;;
     quat_of (x v') (y v') (z v') (cos half_angle)).

End Rotation.

(** ** Sample values *)

Definition Z_vec2 (a b : Z) : vec 2 := mk_vec (T := Z) 2 a b (burn 2) (burn 3).

Definition Z_vec3 (a b c : Z) : vec 3 := mk_vec (T := Z) 3 a b c (burn 3).

Definition Z_vec4 (a b c d : Z) : vec 4 := mk_vec (T := Z) 4 a b c d.

Definition Z_mat22 (a b c d : Z) : mat 2 2 :=
  mat_of_columns (C := 2) (Z_vec2 a b, (Z_vec2 c d, tt)).

(** The matrix with rows (1, 2, 3), (5, 7, -4) and (1, 2, 3). *)
Definition m_equal_rows : mat 3 3 :=
  mat_of_columns (C := 3)
    (Z_vec3 1 5 1, (Z_vec3 2 7 2, (Z_vec3 3 (-4) 3, tt))).

Definition Qc_vec2 (a b : Qc) : vec 2 :=
  mk_vec (T := Qc) 2 a b (burn 2) (burn 3).

Definition Qc_mat22 (a b c d : Qc) : mat 2 2 :=
  mat_of_columns (C := 2) (Qc_vec2 a b, (Qc_vec2 c d, tt)).

Definition Z_mat33 (c0 c1 c2 : @vec Z 3) : mat 3 3 :=
  mat_of_columns (C := 3) (c0, (c1, (c2, tt))).

Definition Qc_vec3 (a b c : Qc) : vec 3 :=
  mk_vec (T := Qc) 3 a b c (burn 3).

Definition Qc_vec4 (a b c d : Qc) : vec 4 := mk_vec (T := Qc) 4 a b c d.

Definition Qc_mat33 (c0 c1 c2 : @vec Qc 3) : mat 3 3 :=
  mat_of_columns (C := 3) (c0, (c1, (c2, tt))).

Definition Qc_mat44 (c0 c1 c2 c3 : @vec Qc 4) : mat 4 4 :=
  mat_of_columns (C := 4) (c0, (c1, (c2, (c3, tt)))).

(** A rational from an integer. *)
Definition Qc_of_Z (n : Z) : Qc := Q2Qc (inject_Z n).

(** The upper triangular matrix with rows (2, 1, 0), (0, 3, 1), (0, 0, 4). *)
Definition m_upper_3 : mat 3 3 :=
  Qc_mat33 (Qc_vec3 (Qc_of_Z 2) (Qc_of_Z 0) (Qc_of_Z 0))
           (Qc_vec3 (Qc_of_Z 1) (Qc_of_Z 3) (Qc_of_Z 0))
           (Qc_vec3 (Qc_of_Z 0) (Qc_of_Z 1) (Qc_of_Z 4)).

(** The matrix with rows (2, 1, 0, 0), (1, 3, 1, 0), (0, 1, 4, 1) and
    (0, 0, 1, 5). *)
Definition m_band_4 : mat 4 4 :=
  Qc_mat44 (Qc_vec4 (Qc_of_Z 2) (Qc_of_Z 1) (Qc_of_Z 0) (Qc_of_Z 0))
           (Qc_vec4 (Qc_of_Z 1) (Qc_of_Z 3) (Qc_of_Z 1) (Qc_of_Z 0))
           (Qc_vec4 (Qc_of_Z 0) (Qc_of_Z 1) (Qc_of_Z 4) (Qc_of_Z 1))
           (Qc_vec4 (Qc_of_Z 0) (Qc_of_Z 0) (Qc_of_Z 1) (Qc_of_Z 5)).

(** Truth of an integer component. *)
Definition Z_truthy (n : Z) : bool := negb (Z.eqb n 0).

(** A stand-in for [std::cos] and [std::sin] on the integers. *)
Definition Z_cos (n : Z) : Z := Z.quot 1 (n * n + 1).

Definition Z_sin (n : Z) : Z := Z.sgn n.

(** The matrix with columns (1, 2) and (3, 4). *)
Definition m_1234 : mat 2 2 :=
  Qc_mat22 (Q2Qc 1) (Q2Qc 2) (Q2Qc 3) (Q2Qc 4).

(** Vectors and matrices of [double].  A decimal literal stands for the
    nearest binary64 number, as it does in the source. *)
#[local] Set Warnings "-inexact-float".

Definition float_vec2 (a b : float) : vec 2 :=
  mk_vec (T := float) 2 a b (burn 2) (burn 3).

Definition float_vec3 (a b c : float) : vec 3 :=
  mk_vec (T := float) 3 a b c (burn 3).

Definition float_vec4 (a b c d : float) : vec 4 :=
  mk_vec (T := float) 4 a b c d.

Definition float_mat22 (c0 c1 : @vec float 2) : mat 2 2 :=
  mat_of_columns (C := 2) (c0, (c1, tt)).

Definition float_mat33 (c0 c1 c2 : @vec float 3) : mat 3 3 :=
  mat_of_columns (C := 3) (c0, (c1, (c2, tt))).

(** The matrix with rows (1, 1, 1), (1, 1, 1) and (1e16, 1, 1). *)
Definition m_large_entry : mat 3 3 :=
  float_mat33 (float_vec3 1 1 1e16) (float_vec3 1 1 1) (float_vec3 1 1 1).

(** The matrices with columns (0.1, 0.2), (0.3, 0.4) and (0.5, 0.6),
    (0.7, 0.8). *)
Definition m_tenths_a : mat 2 2 :=
  float_mat22 (float_vec2 0.1 0.2) (float_vec2 0.3 0.4).

Definition m_tenths_b : mat 2 2 :=
  float_mat22 (float_vec2 0.5 0.6) (float_vec2 0.7 0.8).

(** [std::numeric_limits<double>::epsilon()]. *)
Definition float_epsilon : float := 0x1p-52%float.

(** [operator==] of two results of type [double]. *)
Definition float_results_equal (lhs rhs : outcome float) : outcome bool :=
  l <- lhs ;; r <- rhs ;; Ok (PrimFloat.eqb l r).

(** * Properties *)

Section Properties.

Context {T : Type} {scalar : Scalar T}.

Local Abbreviation vec := (@vec T).
Local Abbreviation mat := (@mat T).
Local Abbreviation quat := (@quat T).

(** ** Loops and arrays *)

Section Loops.

Variable S : Type.

(** Invariant rule for a counted loop whose body never fails while the
    invariant holds. *)
Lemma for_count_invariant (P : nat -> S -> Prop) (body : nat -> S -> outcome S) :
  forall count lo s,
    P lo s ->
    (forall i s0, lo <= i < lo + count -> P i s0 ->
       exists s1, body i s0 = Ok s1 /\ P (Datatypes.S i) s1) ->
    exists s', for_count count lo body s = Ok s' /\ P (lo + count) s'.
Proof.
  induction count as [|count IH]; intros lo s Hs Hbody; simpl.
  - exists s. split; [reflexivity|]. now rewrite Nat.add_0_r.
  - destruct (Hbody lo s) as (s1 & Hs1 & HP1); [lia|assumption|].
    rewrite Hs1. simpl.
    destruct (IH (Datatypes.S lo) s1 HP1) as (s' & Hs' & HP').
    + intros i s0 Hi. apply Hbody. lia.
    + exists s'. split; [assumption|].
      now replace (lo + Datatypes.S count) with (Datatypes.S lo + count) by lia.
Qed.

Lemma for_loop_invariant (P : nat -> S -> Prop) (body : nat -> S -> outcome S)
    (hi : nat) (s : S) :
  P 0 s ->
  (forall i s0, i < hi -> P i s0 ->
     exists s1, body i s0 = Ok s1 /\ P (Datatypes.S i) s1) ->
  exists s', for_loop 0 hi body s = Ok s' /\ P hi s'.
Proof.
  intros Hs Hbody. unfold for_loop. rewrite Nat.sub_0_r.
  apply (@for_count_invariant P body hi 0 s Hs).
  intros i s0 Hi. apply Hbody. lia.
Qed.

Lemma for_count_add (body : nat -> S -> outcome S) :
  forall a b lo s,
    for_count (a + b) lo body s =
    (s' <- for_count a lo body s ;; for_count b (lo + a) body s').
Proof.
  induction a as [|a IH]; intros b lo s; simpl.
  - now rewrite Nat.add_0_r.
  - destruct (body lo s) as [s1|f]; simpl; [|reflexivity].
    rewrite IH. now replace (Datatypes.S lo + a) with (lo + Datatypes.S a) by lia.
Qed.

End Loops.

Section Arrays.

Variable A : Type.
Variable d : A.

Lemma array_subscript_ok :
  forall n (arr : array A n) i,
    i < n ->
    exists r, array_subscript n arr i = Ok r /\
      deref r = array_at d arr i /\
      forall a j, array_at d (assign r a) j = if j =? i then a else array_at d arr j.
Proof.
  induction n as [|n IH]; intros arr i Hi; [lia|].
  destruct arr as [a0 rest]. destruct i as [|i]; simpl.
  - eexists. split; [reflexivity|]. split; [reflexivity|].
    intros a j. destruct j; reflexivity.
  - destruct (IH rest i) as (r & Hr & Hd & Ha); [lia|].
    rewrite Hr. simpl. eexists. split; [reflexivity|].
    split; [exact Hd|].
    intros a j. destruct j as [|j]; [reflexivity|].
    unfold array_at in *. simpl. apply Ha.
Qed.

Lemma array_ext :
  forall n (a b : array A n),
    (forall i, i < n -> array_at d a i = array_at d b i) -> a = b.
Proof.
  induction n as [|n IH]; intros a b H.
  - now destruct a, b.
  - destruct a as [a0 a'], b as [b0 b']. f_equal.
    + apply (H 0). lia.
    + apply IH. intros i Hi. apply (H (Datatypes.S i)). lia.
Qed.

Lemma array_at_fill :
  forall n (a : A) i, i < n -> array_at d (array_fill n a) i = a.
Proof.
  induction n as [|n IH]; intros a i Hi; [lia|].
  destruct i as [|i]; [reflexivity|].
  unfold array_at in *. simpl. apply IH. lia.
Qed.

End Arrays.

Section VecProperties.

Lemma components_length (N : nat) (v : vec N) :
  1 <= N <= 4 -> length (components v) = N.
Proof.
  intros HN. dim_cases N; vec_cases v; reflexivity.
Qed.

Lemma subscript_past_end (N : nat) (v : vec N) (i : nat) :
  1 <= N <= 4 -> N <= i -> subscript v i = Fail out_of_range.
Proof.
  intros HN Hi.
  dim_cases N; vec_cases v;
    destruct i as [|[|[|[|i]]]]; try lia; reflexivity.
Qed.

(** C2: for a vector of dimension 1 to 4, the subscript operator at an index
    below the dimension returns a reference to the component of that index,
    a write through it changes that component only and is read back by the
    next subscript at the same index; at an index that is not below the
    dimension it throws [out_of_range]. *)
Theorem subscript_spec (N : nat) (v : vec N) (i : nat) :
  1 <= N <= 4 ->
  (i < N ->
   exists r, subscript v i = Ok r /\
     nth_error (components v) i = Some (deref r) /\
     forall a : T,
       components (assign r a) = list_update i a (components v) /\
       exists r', subscript (assign r a) i = Ok r' /\ deref r' = a) /\
  (N <= i -> subscript v i = Fail out_of_range).
Proof.
  intros HN. split.
  - intros Hi.
    dim_cases N; vec_cases v;
      destruct i as [|[|[|[|i]]]]; try lia;
      (eexists; split; [reflexivity|]; split; [reflexivity|];
       intros a'; split; [reflexivity|];
       eexists; split; reflexivity).
  - intros Hi. now apply subscript_past_end.
Qed.

Lemma subscript_ok (N : nat) (v : vec N) (i : nat) :
  1 <= N <= 4 -> i < N ->
  exists r, subscript v i = Ok r /\
    deref r = vec_at v i /\
    forall a j, vec_at (assign r a) j = if j =? i then a else vec_at v j.
Proof.
  intros HN Hi.
  dim_cases N; vec_cases v;
    destruct i as [|[|[|[|i]]]]; try lia;
    (eexists; split; [reflexivity|]; split; [reflexivity|];
     intros a' j; destruct j as [|[|[|[|[|j]]]]]; reflexivity).
Qed.

Lemma vec_ext (N : nat) (u v : vec N) :
  1 <= N <= 4 -> (forall i, i < N -> vec_at u i = vec_at v i) -> u = v.
Proof.
  intros HN H.
  dim_cases N; vec_cases u; vec_cases v;
    repeat match goal with
    | |- context [mk_vec _ ?p _ _ _ = mk_vec _ ?q _ _ _] =>
        progress (replace p with q by (symmetry; apply (H 0); lia))
    | |- context [mk_vec _ _ ?p _ _ = mk_vec _ _ ?q _ _] =>
        progress (replace p with q by (symmetry; apply (H 1); lia))
    | |- context [mk_vec _ _ _ ?p _ = mk_vec _ _ _ ?q _] =>
        progress (replace p with q by (symmetry; apply (H 2); lia))
    | |- context [mk_vec _ _ _ _ ?p = mk_vec _ _ _ _ ?q] =>
        progress (replace p with q by (symmetry; apply (H 3); lia))
    end; reflexivity.
Qed.

Lemma vec_at_default (N i : nat) : vec_at (vec_default N) i = zero.
Proof.
  destruct N as [|[|[|[|N]]]];
    destruct i as [|[|[|[|i]]]]; try reflexivity.
  all: unfold vec_at, components, vec_default, if_constexpr_lt, component_default;
    simpl; destruct i; reflexivity.
Qed.

End VecProperties.

(** ** Vector constructors, conversions and operators *)

Section VecOperators.

(** The operators built on [zip_transform] never fail on vectors of
    dimension 1 to 4 and act component by component. *)
Lemma zip_transform_ok (N : nat) (lhs rhs : vec N) (f : T -> T -> T) :
  1 <= N <= 4 ->
  exists r, zip_transform lhs rhs f = Ok r /\
    forall i, i < N -> vec_at r i = f (vec_at lhs i) (vec_at rhs i).
Proof.
  intros HN.
  dim_cases N; vec_cases lhs; vec_cases rhs;
    (eexists; split; [reflexivity|];
     intros i Hi; destruct i as [|[|[|[|i]]]]; try lia; reflexivity).
Qed.

Lemma transform_ok (N : nat) (v : vec N) (f : T -> T) :
  1 <= N <= 4 ->
  exists r, transform v f = Ok r /\
    forall i, i < N -> vec_at r i = f (vec_at v i).
Proof.
  intros HN.
  dim_cases N; vec_cases v;
    (eexists; split; [reflexivity|];
     intros i Hi; destruct i as [|[|[|[|i]]]]; try lia; reflexivity).
Qed.

(** X1: Binary operators between vectors: [+], [-] and [*] return the
    vector of the componentwise sums, differences and products, and [/]
    the vector of the componentwise quotients when no component of the
    divisor is zero. *)
Theorem vec_operators_componentwise (N : nat) (u v : vec N) :
  1 <= N <= 4 ->
  (exists r, vec_add u v = Ok r /\
     forall i, i < N -> vec_at r i = add (vec_at u i) (vec_at v i)) /\
  (exists r, vec_sub u v = Ok r /\
     forall i, i < N -> vec_at r i = sub (vec_at u i) (vec_at v i)) /\
  (exists r, vec_mul u v = Ok r /\
     forall i, i < N -> vec_at r i = mul (vec_at u i) (vec_at v i)) /\
  ((forall i, i < N -> vec_at v i <> zero) ->
   exists r, vec_quot u v = Ok r /\
     forall i, i < N -> vec_at r i = div (vec_at u i) (vec_at v i)).
Proof.
  intros HN.
  unfold vec_add, vec_add_assign, vec_sub, vec_sub_assign,
    vec_mul, vec_mul_assign, vec_quot, vec_quot_assign.
  split; [|split; [|split; [|intros _]]];
    match goal with
    | |- context [zip_transform u v ?f] =>
        destruct (zip_transform_ok u v f HN) as (r & Hr & Hat);
        rewrite Hr; exists r; split; [reflexivity|exact Hat]
    end.
Qed.

(** X2: Operators with a scalar, and unary minus: every component is
    multiplied by the scalar, which may stand on either side of [*], or
    negated; and every component is divided by the scalar when the scalar
    is not zero. *)
Theorem vec_scalar_operators_componentwise (N : nat) (v : vec N) (s : T) :
  1 <= N <= 4 ->
  (exists r, vec_scale v s = Ok r /\ scale_vec s v = Ok r /\
     forall i, i < N -> vec_at r i = mul (vec_at v i) s) /\
  (s <> zero ->
   exists r, vec_div v s = Ok r /\
     forall i, i < N -> vec_at r i = div (vec_at v i) s) /\
  (exists r, vec_neg v = Ok r /\
     forall i, i < N -> vec_at r i = opp (vec_at v i)).
Proof.
  intros HN.
  unfold scale_vec, vec_scale, vec_scale_assign, vec_div, vec_div_assign, vec_neg.
  split; [|split; [intros _|]];
    match goal with
    | |- context [transform v ?f] =>
        destruct (transform_ok v f HN) as (r & Hr & Hat);
        rewrite Hr; exists r; repeat split; try reflexivity; exact Hat
    end.
Qed.

(** The constructor from a scalar gives every component that value. *)
Theorem vec_of_scale_spec (N : nat) (s : T) :
  1 <= N <= 4 ->
  exists r, vec_of_scale N s = Ok r /\ components r = repeat s N.
Proof.
  intros HN. dim_cases N; (eexists; split; reflexivity).
Qed.

(** Swapping two vectors exchanges them. *)
Theorem vec_swap_spec (N : nat) (u v : vec N) :
  1 <= N <= 4 -> vec_swap u v = Ok (v, u).
Proof.
  intros HN. dim_cases N; vec_cases u; vec_cases v; reflexivity.
Qed.

Section TruthProperties.

Variable truthy : T -> bool.
Variable eqb : T -> T -> bool.

(** X3: The conversion to [bool] is the disjunction over the components. *)
Theorem vec_to_bool_spec (N : nat) (v : vec N) :
  1 <= N <= 4 ->
  vec_to_bool truthy v = Ok (existsb truthy (components v)).
Proof.
  intros HN.
  dim_cases N; vec_cases v; cbv;
    repeat match goal with
    | |- context [truthy ?t] => destruct (truthy t)
    end; reflexivity.
Qed.

Hypothesis eqb_eq : forall a b : T, eqb a b = true <-> a = b.

Lemma eqb_refl (a : T) : eqb a a = true.
Proof. now apply eqb_eq. Qed.

(** X4: When [==] on the element type decides equality, [==] on vectors returns
    [true] exactly on equal vectors, and [!=] returns the opposite. *)
Theorem vec_eq_spec (N : nat) (u v : vec N) :
  1 <= N <= 4 ->
  exists b, vec_eq eqb u v = Ok b /\ vec_neq eqb u v = Ok (negb b) /\
    (b = true <-> u = v).
Proof.
  intros HN.
  dim_cases N; vec_cases u; vec_cases v; unfold vec_neq; cbv -[negb];
    repeat match goal with
    | |- context [eqb ?p ?q] =>
        let E := fresh "E" in
        destruct (eqb p q) eqn:E;
        [apply eqb_eq in E; subst|]
    end;
    (eexists; split; [reflexivity|]; split; [reflexivity|];
     split; [try discriminate; reflexivity|
             try reflexivity; intros Heq; inversion Heq; subst;
             rewrite eqb_refl in *; discriminate]).
Qed.

End TruthProperties.

End VecOperators.

(** ** Matrices as tables of entries *)

Section MatProperties.

Lemma mat_subscript_ok (R C : nat) (m : mat R C) (c : nat) :
  c < C ->
  exists col, mat_subscript m c = Ok col /\
    deref col = array_at (vec_default R) (columns_ m) c /\
    forall v c',
      array_at (vec_default R) (columns_ (assign col v)) c' =
      if c' =? c then v else array_at (vec_default R) (columns_ m) c'.
Proof.
  intros Hc. unfold mat_subscript.
  destruct (array_subscript_ok (vec_default R) (columns_ m) Hc)
    as (r & Hr & Hd & Ha).
  rewrite Hr. simpl. eexists. split; [reflexivity|]. split; [exact Hd|].
  intros v c'. simpl. apply Ha.
Qed.

Lemma mat_subscript2_ok (R C : nat) (m : mat R C) (c r : nat) :
  1 <= R <= 4 -> c < C -> r < R ->
  exists e, mat_subscript2 m c r = Ok e /\
    deref e = entry m c r /\
    forall a c' r',
      entry (assign e a) c' r' =
      if (c' =? c) && (r' =? r) then a else entry m c' r'.
Proof.
  intros HR Hc Hr. unfold mat_subscript2.
  destruct (mat_subscript_ok m Hc) as (col & Hcol & Hd & Ha).
  rewrite Hcol. simpl.
  destruct (subscript_ok (deref col) HR Hr) as (e & He & Hde & Hae).
  rewrite He. simpl. eexists. split; [reflexivity|].
  split; [simpl; rewrite Hde, Hd; reflexivity|].
  intros a c' r'. simpl. unfold entry. rewrite Ha.
  destruct (Nat.eqb_spec c' c) as [->|Hne]; simpl; [|reflexivity].
  rewrite Hae. destruct (r' =? r); [reflexivity|]. now rewrite Hd.
Qed.

Lemma mat_ext (R C : nat) (m m' : mat R C) :
  1 <= R <= 4 ->
  (forall c r, c < C -> r < R -> entry m c r = entry m' c r) -> m = m'.
Proof.
  intros HR H. destruct m as [cols], m' as [cols']. f_equal.
  apply (array_ext (vec_default R)). intros c Hc.
  apply vec_ext; [assumption|]. intros r Hr. apply (H c r Hc Hr).
Qed.

Lemma entry_default (R C c r : nat) : entry (mat_default R C) c r = zero.
Proof.
  unfold entry, mat_default. simpl.
  destruct (Nat.lt_ge_cases c C) as [Hc|Hc].
  - rewrite array_at_fill by assumption. apply vec_at_default.
  - unfold array_at. rewrite nth_overflow; [apply vec_at_default|].
    clear - Hc. revert c Hc.
    induction C as [|C IH]; intros c Hc; simpl; [lia|].
    destruct c as [|c]; [lia|]. specialize (IH c). simpl in IH. lia.
Qed.

Lemma transpose_entries (R C : nat) (m : mat R C) :
  1 <= R <= 4 -> 1 <= C <= 4 ->
  exists t, transpose m = Ok t /\
    forall i j, i < R -> j < C -> entry t i j = entry m j i.
Proof.
  intros HR HC. unfold transpose.
  destruct (@for_loop_invariant (mat C R)
    (fun i t => forall c r, c < R -> r < C ->
       entry t c r = if r <? i then entry m r c else zero)
    (fun i t =>
       for_loop 0 R
         (fun j t =>
            dst <- mat_subscript2 t j i ;;
            src <- mat_subscript2 m i j ;;
            Ok (assign dst (deref src)))
         t)
    C (mat_default C R)) as (t & Ht & Pt).
  - intros c r _ _. apply entry_default.
  - intros i t0 Hi P0.
    destruct (@for_loop_invariant (mat C R)
      (fun j t => forall c r, c < R -> r < C ->
         entry t c r =
         if r <? i then entry m r c
         else if (r =? i) && (c <? j) then entry m r c else zero)
      (fun j t =>
         dst <- mat_subscript2 t j i ;;
         src <- mat_subscript2 m i j ;;
         Ok (assign dst (deref src)))
      R t0) as (t1 & Ht1 & Pt1).
    + intros c r Hc Hr. rewrite (P0 c r Hc Hr). index_cases.
    + intros j t1 Hj P1.
      destruct (mat_subscript2_ok t1 HC Hj Hi) as (dst & Hdst & _ & Hset).
      destruct (mat_subscript2_ok m HR Hi Hj) as (src & Hsrc & Hval & _).
      rewrite Hdst. simpl. rewrite Hsrc. simpl.
      eexists. split; [reflexivity|].
      intros c r Hc Hr. rewrite Hset, Hval.
      destruct (Nat.eqb_spec c j) as [->|Hcj];
        destruct (Nat.eqb_spec r i) as [->|Hri]; simpl;
        try rewrite (P1 _ _ Hc Hr); index_cases.
    + exists t1. split; [exact Ht1|].
      intros c r Hc Hr. rewrite (Pt1 c r Hc Hr). index_cases.
  - rewrite Ht. simpl. exists t. split; [reflexivity|].
    intros i j Hi Hj. rewrite (Pt i j Hi Hj). index_cases.
Qed.

(** C9: the transpose of an R-by-C matrix is the C-by-R matrix whose entry
    in column [i], row [j] is the entry of the argument in column [j], row
    [i], and transposing it again gives the argument back. *)
Theorem transpose_spec (R C : nat) (m : mat R C) :
  1 <= R <= 4 -> 1 <= C <= 4 ->
  exists t : mat C R, transpose m = Ok t /\
    (forall i j, i < R -> j < C -> entry t i j = entry m j i) /\
    transpose t = Ok m.
Proof.
  intros HR HC.
  destruct (transpose_entries m HR HC) as (t & Ht & Hentries).
  exists t. split; [exact Ht|]. split; [exact Hentries|].
  destruct (transpose_entries t HC HR) as (t' & Ht' & Hentries').
  rewrite Ht'. f_equal. apply mat_ext; [assumption|].
  intros c r Hc Hr. rewrite Hentries' by assumption. now apply Hentries.
Qed.

Lemma mat_mul_entries (N M K : nat) (lhs : mat N M) (rhs : mat M K) :
  1 <= N <= 4 -> 1 <= M <= 4 ->
  exists p, mat_mul lhs rhs = Ok p /\
    forall i j, i < N -> j < K ->
      entry p j i = big_sum M (fun k => mul (entry lhs k i) (entry rhs j k)).
Proof.
  intros HN HM.
  pose (term := fun i j k => mul (entry lhs k i) (entry rhs j k)).
  pose (inner := fun i j k (p : mat N K) =>
         acc <- mat_subscript2 p j i ;;
         l <- mat_subscript2 lhs k i ;;
         r <- mat_subscript2 rhs j k ;;
         Ok (assign acc (add (deref acc) (mul (deref l) (deref r))))).
  pose (middle := fun i j (p : mat N K) => for_loop 0 M (inner i j) p).
  destruct (@for_loop_invariant (mat N K)
    (fun i p => forall c r, c < K -> r < N ->
       entry p c r = if r <? i then big_sum M (term r c) else zero)
    (fun i p => for_loop 0 K (middle i) p)
    N (mat_default N K)) as (p & Hp & Pp).
  - intros c r _ _. apply entry_default.
  - intros i p0 Hi P0.
    destruct (@for_loop_invariant (mat N K)
      (fun j p => forall c r, c < K -> r < N ->
         entry p c r =
         if r <? i then big_sum M (term r c)
         else if (r =? i) && (c <? j) then big_sum M (term r c) else zero)
      (middle i) K p0) as (p1 & Hp1 & Pp1).
    + intros c r Hc Hr. rewrite (P0 c r Hc Hr). index_cases.
    + intros j p1 Hj P1.
      destruct (@for_loop_invariant (mat N K)
        (fun k p => forall c r, c < K -> r < N ->
           entry p c r =
           if (r =? i) && (c =? j) then big_sum k (term i j)
           else if r <? i then big_sum M (term r c)
           else if (r =? i) && (c <? j) then big_sum M (term r c) else zero)
        (inner i j) M p1) as (p2 & Hp2 & Pp2).
      * intros c r Hc Hr. rewrite (P1 c r Hc Hr). index_cases.
      * intros k p2 Hk P2. unfold inner.
        destruct (mat_subscript2_ok p2 HN Hj Hi) as (acc & Hacc & Hval & Hset).
        destruct (mat_subscript2_ok lhs HN Hk Hi) as (l & Hl & Hlv & _).
        destruct (mat_subscript2_ok rhs HM Hj Hk) as (r0 & Hr0 & Hrv & _).
        rewrite Hacc. simpl. rewrite Hl. simpl. rewrite Hr0. simpl.
        eexists. split; [reflexivity|].
        intros c r Hc Hr. rewrite Hset, Hval, Hlv, Hrv.
        rewrite (P2 j i Hj Hi), !Nat.eqb_refl. simpl.
        destruct (Nat.eqb_spec c j) as [->|Hcj];
          destruct (Nat.eqb_spec r i) as [->|Hri]; simpl;
          try reflexivity; rewrite (P2 _ _ Hc Hr); index_cases.
      * exists p2. split; [exact Hp2|].
        intros c r Hc Hr. rewrite (Pp2 c r Hc Hr). index_cases; subst; reflexivity.
    + exists p1. split; [exact Hp1|].
      intros c r Hc Hr. rewrite (Pp1 c r Hc Hr). index_cases.
  - exists p. split.
    + unfold mat_mul. change (Ok p) with (noexcept (Ok p)).
      f_equal. exact Hp.
    + intros i j Hi Hj. rewrite (Pp j i Hj Hi). index_cases.
Qed.

(** C4: the product of an N-by-M and an M-by-K matrix is the N-by-K matrix
    whose entry in column [j], row [i] is the sum over [k] of
    [lhs[k, i] * rhs[j, k]], and the multiplication assignment of square
    matrices yields that same product as the new left operand. *)
Theorem mat_mul_spec (N M K : nat) (lhs : mat N M) (rhs : mat M K) :
  1 <= N <= 4 -> 1 <= M <= 4 ->
  (exists p, mat_mul lhs rhs = Ok p /\
     forall i j, i < N -> j < K ->
       entry p j i = big_sum M (fun k => mul (entry lhs k i) (entry rhs j k))) /\
  (forall a b : mat N N,
     exists q, mat_mul_assign a b = Ok q /\
       forall i j, i < N -> j < N ->
         entry q j i = big_sum N (fun k => mul (entry a k i) (entry b j k))).
Proof.
  intros HN HM. split.
  - now apply mat_mul_entries.
  - intros a b. unfold mat_mul_assign.
    destruct (mat_mul_entries a b HN HN) as (q & Hq & Hentries).
    rewrite Hq. exists q. split; [reflexivity|exact Hentries].
Qed.

End MatProperties.

(** ** Matrix and vector, builders *)

Section MatVec.

Lemma mat_mul_vec_entries (N M : nat) (m : mat N M) (v : vec M) :
  1 <= N <= 4 -> 1 <= M <= 4 ->
  exists p, mat_mul_vec m v = Ok p /\
    forall i, i < N ->
      vec_at p i = big_sum M (fun k => mul (entry m k i) (vec_at v k)).
Proof.
  intros HN HM.
  dim_cases N; dim_cases M; mat_cases m;
    (eexists; split; [run; reflexivity|];
     intros i Hi; destruct i as [|[|[|[|i]]]]; try lia; run; reflexivity).
Qed.

(** X16: [outer_product] of an N-vector and an M-vector builds a matrix of M rows
    and N columns but indexes it as if it had N rows and M columns: it
    returns the table of products only when [N = M]; when [M < N] it steps
    past the rows of a column and terminates; when [N < M] it indexes past
    the columns, which is undefined. *)
Theorem outer_product_spec (N M : nat) (lhs : vec N) (rhs : vec M) :
  1 <= N <= 4 -> 1 <= M <= 4 ->
  (N = M ->
   exists m, outer_product lhs rhs = Ok m /\
     forall col row, col < M -> row < N ->
       entry m col row = mul (vec_at lhs row) (vec_at rhs col)) /\
  (M < N -> outer_product lhs rhs = Fail terminate) /\
  (N < M -> outer_product lhs rhs = Fail undefined).
Proof.
  intros HN HM.
  dim_cases N; dim_cases M; vec_cases lhs; vec_cases rhs.
  all: split; [|split]; intros Hcmp; try lia; try (run; reflexivity).
  all: eexists; split; [run; reflexivity|].
  all: intros col row Hc Hr;
    destruct col as [|[|[|[|col]]]]; try lia;
    destruct row as [|[|[|[|row]]]]; try lia; reflexivity.
Qed.

Lemma trace_sum (N : nat) (m : mat N N) :
  1 <= N <= 4 -> trace m = Ok (big_sum N (fun i => entry m i i)).
Proof.
  intros HN. dim_cases N; mat_cases m; run; reflexivity.
Qed.

(** ** Entrywise operators on matrices *)

Lemma array_for_each_ok (A : Type) (d : A) (f : A -> outcome A)
    (P : A -> A -> Prop) :
  (forall a, exists b, f a = Ok b /\ P a b) ->
  forall n (arr : array A n),
    exists r, array_for_each n f arr = Ok r /\
      forall i, i < n -> P (array_at d arr i) (array_at d r i).
Proof.
  intros Hf. induction n as [|n IH]; intros arr.
  - exists tt. split; [reflexivity|]. intros i Hi. lia.
  - destruct arr as [a rest]. simpl.
    destruct (Hf a) as (b & Hb & Pb). rewrite Hb. simpl.
    destruct (IH rest) as (r & Hr & Pr). rewrite Hr. simpl.
    eexists. split; [reflexivity|].
    intros i Hi. destruct i as [|i]; [exact Pb|].
    apply (Pr i). lia.
Qed.

Lemma mat_map_columns (R C : nat) (m : mat R C)
    (f : vec R -> outcome (vec R)) (g : T -> T) :
  (forall v, exists r, f v = Ok r /\
     forall i, i < R -> vec_at r i = g (vec_at v i)) ->
  exists cols, array_for_each C f (columns_ m) = Ok cols /\
    forall c i, c < C -> i < R ->
      entry (@mk_mat T R C cols) c i = g (entry m c i).
Proof.
  intros Hf.
  destruct (@array_for_each_ok (vec R) (vec_default R) f
              (fun v r => forall i, i < R -> vec_at r i = g (vec_at v i))
              Hf C (columns_ m)) as (cols & Hcols & Pcols).
  exists cols. split; [exact Hcols|].
  intros c i Hc Hi. unfold entry. simpl. now apply Pcols.
Qed.

Lemma mat_zip_columns (R C : nat) (lhs rhs : mat R C)
    (vop : vec R -> vec R -> outcome (vec R)) (g : T -> T -> T) :
  (forall u v, exists r, vop u v = Ok r /\
     forall i, i < R -> vec_at r i = g (vec_at u i) (vec_at v i)) ->
  exists m,
    for_loop 0 C
      (fun i lhs =>
         l <- mat_subscript lhs i ;;
         r <- mat_subscript rhs i ;;
         res <- vop (deref l) (deref r) ;;
         Ok (assign l res))
      lhs = Ok m /\
    forall c i, c < C -> i < R ->
      entry m c i = g (entry lhs c i) (entry rhs c i).
Proof.
  intros Hop.
  destruct (@for_loop_invariant (mat R C)
    (fun n m => forall c i, c < C -> i < R ->
       entry m c i =
       if c <? n then g (entry lhs c i) (entry rhs c i) else entry lhs c i)
    (fun i lhs =>
       l <- mat_subscript lhs i ;;
       r <- mat_subscript rhs i ;;
       res <- vop (deref l) (deref r) ;;
       Ok (assign l res))
    C lhs) as (m & Hm & Pm).
  - intros c i _ _. reflexivity.
  - intros n m0 Hn P0.
    destruct (mat_subscript_ok m0 Hn) as (l & Hl & Hlv & Hset).
    destruct (mat_subscript_ok rhs Hn) as (r & Hr & Hrv & _).
    destruct (Hop (deref l) (deref r)) as (res & Hres & Pres).
    rewrite Hl. simpl. rewrite Hr. simpl. rewrite Hres. simpl.
    eexists. split; [reflexivity|].
    intros c i Hc Hi. unfold entry at 1. rewrite Hset.
    destruct (Nat.eqb_spec c n) as [->|Hcn].
    + rewrite Pres, Hlv, Hrv by assumption.
      fold (entry m0 n i). fold (entry rhs n i).
      rewrite (P0 n i Hn Hi). index_cases.
    + fold (entry m0 c i). rewrite (P0 c i Hc Hi). index_cases.
  - exists m. split; [exact Hm|].
    intros c i Hc Hi. rewrite (Pm c i Hc Hi). index_cases.
Qed.

(** X17: Sum, difference, scalar multiples and negation of matrices with any
    number of columns act entry by entry, the scalar standing on either
    side of [*]; so does the quotient by a scalar that is not zero. *)
Theorem mat_operators_entrywise (R C : nat) (a b : mat R C) (s : T) :
  1 <= R <= 4 ->
  (exists r, mat_add a b = Ok r /\
     forall c i, c < C -> i < R ->
       entry r c i = add (entry a c i) (entry b c i)) /\
  (exists r, mat_sub a b = Ok r /\
     forall c i, c < C -> i < R ->
       entry r c i = sub (entry a c i) (entry b c i)) /\
  (exists r, mat_scale a s = Ok r /\ scale_mat s a = Ok r /\
     forall c i, c < C -> i < R -> entry r c i = mul (entry a c i) s) /\
  (s <> zero ->
   exists r, mat_div a s = Ok r /\
     forall c i, c < C -> i < R -> entry r c i = div (entry a c i) s) /\
  (exists r, mat_neg a = Ok r /\
     forall c i, c < C -> i < R -> entry r c i = opp (entry a c i)).
Proof.
  intros HR.
  assert (Hzip : forall f (u v : vec R), exists r,
            noexcept (zip_transform u v f) = Ok r /\
            forall i, i < R -> vec_at r i = f (vec_at u i) (vec_at v i)).
  { intros f u v. destruct (zip_transform_ok u v f HR) as (r & Hr & Pr).
    rewrite Hr. exists r. split; [reflexivity|exact Pr]. }
  assert (Hmap : forall f (v : vec R), exists r,
            noexcept (transform v f) = Ok r /\
            forall i, i < R -> vec_at r i = f (vec_at v i)).
  { intros f v. destruct (transform_ok v f HR) as (r & Hr & Pr).
    rewrite Hr. exists r. split; [reflexivity|exact Pr]. }
  split; [|split; [|split; [|split]]].
  - destruct (@mat_zip_columns R C a b vec_add_assign add (Hzip add))
      as (r & Hr & Pr).
    unfold mat_add, mat_add_assign. rewrite Hr.
    exists r. split; [reflexivity|exact Pr].
  - destruct (@mat_zip_columns R C a b vec_sub_assign sub (Hzip sub))
      as (r & Hr & Pr).
    unfold mat_sub, mat_sub_assign. rewrite Hr.
    exists r. split; [reflexivity|exact Pr].
  - destruct (@mat_map_columns R C a
                (fun column => vec_scale_assign column s)
                (fun t => mul t s) (Hmap (fun t => mul t s)))
      as (cols & Hcols & Pcols).
    unfold scale_mat, mat_scale, mat_scale_assign. rewrite Hcols.
    eexists. split; [reflexivity|]. split; [reflexivity|exact Pcols].
  - intros _.
    destruct (@mat_map_columns R C a
                (fun column => vec_div_assign column s)
                (fun t => div t s) (Hmap (fun t => div t s)))
      as (cols & Hcols & Pcols).
    unfold mat_div, mat_div_assign. rewrite Hcols.
    eexists. split; [reflexivity|exact Pcols].
  - destruct (@mat_map_columns R C a (fun column => vec_neg column)
                opp (Hmap opp))
      as (cols & Hcols & Pcols).
    unfold mat_neg. rewrite Hcols.
    eexists. split; [reflexivity|exact Pcols].
Qed.

End MatVec.

(** ** The constructor from a scalar *)

(** The first [n] rounds of the loop of the constructor from a scalar, as
    long as they stay within the rows and the columns. *)
Lemma mat_of_scale_rounds (R C n : nat) (s : T) :
  1 <= R <= 4 -> n <= R -> n <= C ->
  exists m,
    for_count n 0
      (fun i this => e <- mat_subscript2 this i i ;; Ok (assign e s))
      (mat_default R C) = Ok m /\
    forall c r, entry m c r = if (c =? r) && (c <? n) then s else zero.
Proof.
  intros HR HnR HnC.
  destruct (@for_count_invariant (mat R C)
    (fun i m => forall c r,
       entry m c r = if (c =? r) && (c <? i) then s else zero)
    (fun i this => e <- mat_subscript2 this i i ;; Ok (assign e s))
    n 0 (mat_default R C)) as (m & Hm & Pm).
  - intros c r. rewrite entry_default. index_cases.
  - intros i m0 Hi P0.
    assert (Hcol : i < C) by lia. assert (Hrow : i < R) by lia.
    destruct (mat_subscript2_ok m0 HR Hcol Hrow) as (e & He & _ & Hset).
    rewrite He. simpl. eexists. split; [reflexivity|].
    intros c r. rewrite Hset.
    destruct (Nat.eqb_spec c i) as [->|Hci];
      destruct (Nat.eqb_spec r i) as [->|Hri]; simpl;
      try rewrite (P0 _ _); index_cases.
  - exists m. split; [exact Hm|exact Pm].
Qed.

Lemma mat_identity_entries (N : nat) (s : T) :
  1 <= N <= 4 ->
  exists id, mat_of_scale N N s = Ok id /\
    forall c r, entry id c r = if (c =? r) && (c <? N) then s else zero.
Proof.
  intros HN.
  destruct (@mat_of_scale_rounds N N N s HN (Nat.le_refl N) (Nat.le_refl N))
    as (m & Hm & Pm).
  exists m. split; [|exact Pm].
  unfold mat_of_scale, for_loop. rewrite Nat.sub_0_r, Hm. reflexivity.
Qed.

(** C5: the constructor from a scalar sets the main diagonal to the scalar
    and leaves the other entries zero when the matrix type has no more
    columns than rows; with more columns than rows the loop over the columns
    steps past the last row, the exception of the vector subscript leaves a
    [noexcept] function, and no matrix is produced. *)
Theorem mat_of_scale_spec (R C : nat) (s : T) :
  1 <= R <= 4 ->
  (C <= R ->
   exists m, mat_of_scale R C s = Ok m /\
     forall c r, c < C -> r < R -> entry m c r = if c =? r then s else zero) /\
  (R < C -> mat_of_scale R C s = Fail terminate).
Proof.
  intros HR. split.
  - intros HC.
    destruct (@mat_of_scale_rounds R C C s HR HC (Nat.le_refl C))
      as (m & Hm & Pm).
    exists m. split.
    + unfold mat_of_scale, for_loop. rewrite Nat.sub_0_r, Hm. reflexivity.
    + intros c r Hc Hr. rewrite Pm. index_cases.
  - intros HC.
    assert (HRC : R <= C) by lia.
    destruct (@mat_of_scale_rounds R C R s HR (Nat.le_refl R) HRC)
      as (m & Hm & _).
    pose proof (for_count_add
      (fun i this => e <- mat_subscript2 this i i ;; Ok (assign e s))
      R (Datatypes.S (C - R - 1)) 0 (mat_default R C)) as Hsplit.
    replace (R + Datatypes.S (C - R - 1)) with C in Hsplit by lia.
    unfold mat_of_scale, for_loop. rewrite Nat.sub_0_r, Hsplit, Hm. simpl.
    destruct (mat_subscript_ok m HC) as (col & Hcol & _ & _).
    unfold mat_subscript2. rewrite Hcol. simpl.
    rewrite (subscript_past_end (deref col) HR (Nat.le_refl R)).
    reflexivity.
Qed.

(** ** Norms, axis and angle *)

Lemma norm_squared_3 (a b c : T) :
  norm_squared (mk_vec 3 a b c (burn 3)) =
  Ok (add (add (add zero (mul a a)) (mul b b)) (mul c c)).
Proof. reflexivity. Qed.

Lemma norm_squared_4 (a b c d : T) :
  norm_squared (mk_vec 4 a b c d) =
  Ok (add (add (add (add zero (mul a a)) (mul b b)) (mul c c)) (mul d d)).
Proof. reflexivity. Qed.

Section AxisAngleProperties.

Variable double : Type.
Variable sqrt : T -> double.
Variable epsilon : T.
Variable le_double : double -> T -> bool.
Variable of_double : double -> T.
Variable atan2 : double -> T -> double.
Variable twice : double -> double.

(** C6: with [n] the norm of the imaginary part [(x, y, z)] of [q], that
    is the square root of [x * x + y * y + z * z] added up from zero,
    [axis_angle q] is the pair of the zero vector and zero when [n] is at
    most the machine epsilon of [T], and otherwise the imaginary part
    divided by [n] together with twice [atan2 (n, w)]. *)
Theorem axis_angle_spec (q : quat) :
  let qx : T := x q in
  let qy : T := y q in
  let qz : T := z q in
  let n := sqrt (add (add (add zero (mul qx qx)) (mul qy qy)) (mul qz qz)) in
  axis_angle sqrt epsilon le_double of_double atan2 twice q =
  Ok (if le_double n epsilon
      then (mk_vec 3 zero zero zero (burn 3) : vec 3, zero)
      else (mk_vec 3 (div qx (of_double n))
              (div qy (of_double n))
              (div qz (of_double n)) (burn 3) : vec 3,
            of_double (twice (atan2 n (w q))))).
Proof.
  vec_cases q. cbv zeta.
  change (x (mk_vec 4 a b c d) : T) with a.
  change (y (mk_vec 4 a b c d) : T) with b.
  change (z (mk_vec 4 a b c d) : T) with c.
  unfold axis_angle, norm.
  change (vec_of 3 [x (mk_vec 4 a b c d); y (mk_vec 4 a b c d);
                    z (mk_vec 4 a b c d)])
    with (Ok (mk_vec 3 a b c (burn 3))).
  cbn [bind]. rewrite norm_squared_3. cbn [bind noexcept].
  destruct (le_double _ epsilon); reflexivity.
Qed.

End AxisAngleProperties.

(** ** Exact arithmetic *)

(** The properties of this section hold when the arithmetic of the element
    type is exact: its operators form a commutative ring. *)

Section RingProperties.

Hypothesis Tring : ring_theory zero one add mul sub opp eq.

Add Ring T_ring : Tring.

Lemma norm_squared_unit (N : nat) (v : vec N) (n : T) :
  norm_squared v = Ok one -> norm_squared v = Ok n -> n = one.
Proof. intros H1 Hn. rewrite H1 in Hn. now inversion Hn. Qed.

(** C7: the squared norm of a Hamilton product is the product of the squared
    norms of its factors; in particular the product of two quaternions of
    unit norm has unit norm. *)
Theorem quat_mul_norm (p q : quat) :
  (exists pq np nq,
     quat_mul p q = Ok pq /\
     norm_squared p = Ok np /\ norm_squared q = Ok nq /\
     norm_squared pq = Ok (mul np nq)) /\
  (norm_squared p = Ok one -> norm_squared q = Ok one ->
   exists pq, quat_mul p q = Ok pq /\ norm_squared pq = Ok one).
Proof.
  assert (Hgen : exists pq np nq,
            quat_mul p q = Ok pq /\
            norm_squared p = Ok np /\ norm_squared q = Ok nq /\
            norm_squared pq = Ok (mul np nq)).
  { vec_cases p. vec_cases q.
    do 3 eexists.
    split; [run; reflexivity|].
    rewrite !norm_squared_4.
    split; [reflexivity|]. split; [reflexivity|].
    f_equal. ring. }
  split; [exact Hgen|].
  intros Hp Hq. destruct Hgen as (pq & np & nq & Hpq & Hnp & Hnq & Hn).
  exists pq. split; [exact Hpq|].
  rewrite Hn, (@norm_squared_unit _ _ _ Hp Hnp), (@norm_squared_unit _ _ _ Hq Hnq).
  f_equal. ring.
Qed.

(** C10: conjugating a 3-vector by a quaternion of unit norm preserves the
    squared norm of the vector. *)
Theorem quat_mul_vec_norm (q : quat) (v : vec 3) :
  norm_squared q = Ok one ->
  exists qv nv,
    quat_mul_vec q v = Ok qv /\
    norm_squared v = Ok nv /\
    norm_squared qv = Ok nv.
Proof.
  vec_cases q. vec_cases v. rename a0 into v0, b0 into v1, c0 into v2.
  rewrite norm_squared_4. intros Hunit. inversion Hunit as [Hnq]. clear Hunit.
  do 2 eexists.
  split; [run; reflexivity|].
  rewrite !norm_squared_3.
  split; [reflexivity|]. f_equal.
  set (uv := add (add (mul a v0) (mul b v1)) (mul c v2)).
  set (uu := add (add (mul a a) (mul b b)) (mul c c)).
  set (vv := add (add (mul v0 v0) (mul v1 v1)) (mul v2 v2)).
  set (nq := add (add (add (add zero (mul a a)) (mul b b)) (mul c c)) (mul d d)) in *.
  match goal with
  | |- ?lhs = ?rhs =>
      transitivity
        (add rhs
           (mul (sub one nq)
              (mul (mul two two) (sub (mul uv uv) (mul uu vv)))))
  end.
  - subst uv uu vv nq. unfold two. ring.
  - rewrite Hnq. ring.
Qed.

(** C8: in exact arithmetic, over a commutative ring, the determinant of the
    3-by-3 identity matrix is 1, and the determinant of a 3-by-3 matrix with
    two equal rows is 0. *)
Theorem determinant_3_spec :
  (exists id, mat_of_scale 3 3 one = Ok id /\ determinant_3 id = Ok one) /\
  (forall (m : mat 3 3) (i j : nat),
     i < 3 -> j < 3 -> i <> j ->
     (forall c, c < 3 -> entry m c i = entry m c j) ->
     determinant_3 m = Ok zero).
Proof.
  split.
  - eexists. split; [run; reflexivity|]. run. f_equal. ring.
  - intros m i j Hi Hj Hij Hrows.
    destruct m as [[c0 [c1 [c2 []]]]].
    vec_cases c0. vec_cases c1. vec_cases c2.
    pose proof (Hrows 0 ltac:(lia)) as H0.
    pose proof (Hrows 1 ltac:(lia)) as H1.
    pose proof (Hrows 2 ltac:(lia)) as H2.
    clear Hrows.
    destruct i as [|[|[|i]]]; try lia;
      destruct j as [|[|[|j]]]; try lia;
      cbv in H0, H1, H2; subst; run; f_equal; ring.
Qed.

(** C3: for a vector of dimension 1 to 3, [translation] is the identity
    matrix of the next dimension with the vector in the leading rows of its
    last column, and applied to the homogeneous point [(0, ..., 0, 1)] it
    yields the vector followed by 1. *)
Theorem translation_spec (N : nat) (v : vec N) :
  1 <= N <= 3 ->
  exists t, translation v = Ok t /\
    (forall c r, c <= N -> r <= N ->
       entry t c r =
       if (c =? N) && (r <? N) then vec_at v r
       else if c =? r then one else zero) /\
    (p <- vec_of (N + 1) (repeat zero N ++ [one]) ;; mat_mul_vec t p) =
    vec_of (N + 1) (components v ++ [one]).
Proof.
  intros HN.
  destruct N as [|[|[|[|N]]]]; try lia; vec_cases v;
    (eexists; split; [run; reflexivity|]; split;
     [ intros col row Hc Hr;
       destruct col as [|[|[|[|col]]]]; try lia;
       destruct row as [|[|[|[|row]]]]; try lia; reflexivity
     | run; do 2 f_equal; ring ]).
Qed.

(** X7: The dot product is the sum of the products of the components, and it is
    symmetric. *)
Theorem dot_spec (N : nat) (u v : vec N) :
  1 <= N <= 4 ->
  dot u v = Ok (big_sum N (fun i => mul (vec_at u i) (vec_at v i))) /\
  dot v u = dot u v.
Proof.
  intros HN.
  dim_cases N; vec_cases u; vec_cases v;
    (split; [reflexivity|run; f_equal; ring]).
Qed.

(** X8: The cross product is anti-commutative and orthogonal to both of its
    operands. *)
Theorem cross_spec (u v : vec 3) :
  exists c c',
    cross u v = Ok c /\ cross v u = Ok c' /\ vec_neg c' = Ok c /\
    dot c u = Ok zero /\ dot c v = Ok zero.
Proof.
  vec_cases u. vec_cases v.
  do 2 eexists.
  split; [run; reflexivity|]. split; [run; reflexivity|].
  split; [run; do 2 f_equal; ring|].
  split; run; f_equal; ring.
Qed.

(** X9: Over a commutative ring, conjugation of quaternions is an involution,
    and a quaternion times its conjugate, in either order, is the real
    quaternion of its squared norm. *)
Theorem conjugate_spec (q : quat) :
  exists c n,
    conjugate q = Ok c /\ conjugate c = Ok q /\
    norm_squared q = Ok n /\
    quat_mul q c = quat_of zero zero zero n /\
    quat_mul c q = quat_of zero zero zero n.
Proof.
  vec_cases q.
  do 2 eexists.
  split; [run; reflexivity|].
  split; [run; do 2 f_equal; ring|].
  split; [run; reflexivity|].
  split; run; do 2 f_equal; ring.
Qed.

(** X10: The Hamilton product is associative. *)
Theorem quat_mul_assoc (p q r : quat) :
  (pq <- quat_mul p q ;; quat_mul pq r) =
  (qr <- quat_mul q r ;; quat_mul p qr).
Proof.
  vec_cases p. vec_cases q. vec_cases r.
  run. do 2 f_equal; ring.
Qed.

(** X11: Over a commutative ring, for a quaternion [q] of unit norm,
    conjugating the vector [v] is the Hamilton sandwich:
    [q * (v, 0) * conjugate(q)] is [(q * v, 0)]. *)
Theorem quat_mul_vec_sandwich (q : quat) (v : vec 3) :
  norm_squared q = Ok one ->
  (pure <- quat_of (x v) (y v) (z v) zero ;;
   left <- quat_mul q pure ;;
   c <- conjugate q ;;
   quat_mul left c) =
  (r <- quat_mul_vec q v ;; quat_of (x r) (y r) (z r) zero).
Proof.
  vec_cases q. vec_cases v. rename a0 into v0, b0 into v1, c0 into v2.
  rewrite norm_squared_4. intros Hunit. inversion Hunit as [Hnq]. clear Hunit.
  run.
  set (nq := add (add (add (add zero (mul a a)) (mul b b)) (mul c c)) (mul d d)) in *.
  assert (Hstep : forall lhs rhs vi : T,
            lhs = add rhs (mul (sub nq one) vi) -> lhs = rhs).
  { intros lhs rhs vi ->. rewrite Hnq. ring. }
  do 2 f_equal.
  - apply (Hstep _ _ v0). subst nq. unfold two. ring.
  - apply (Hstep _ _ v1). subst nq. unfold two. ring.
  - apply (Hstep _ _ v2). subst nq. unfold two. ring.
  - ring.
Qed.

(** ** Products of matrices *)

(** X18: Matrix multiplication is associative. *)
Theorem mat_mul_assoc (N M K L : nat)
    (a : mat N M) (b : mat M K) (c : mat K L) :
  1 <= N <= 4 -> 1 <= M <= 4 -> 1 <= K <= 4 ->
  (ab <- mat_mul a b ;; mat_mul ab c) = (bc <- mat_mul b c ;; mat_mul a bc).
Proof.
  intros HN HM HK.
  destruct (mat_mul_entries a b HN HM) as (ab & Hab & Eab).
  destruct (mat_mul_entries b c HM HK) as (bc & Hbc & Ebc).
  destruct (mat_mul_entries ab c HN HK) as (l & Hl & El).
  destruct (mat_mul_entries a bc HN HM) as (r & Hr & Er).
  rewrite Hab, Hbc. simpl. rewrite Hl, Hr. f_equal.
  apply mat_ext; [assumption|]. intros j i Hj Hi.
  rewrite El, Er by assumption.
  dim_cases M; dim_cases K; cbn [big_sum];
    rewrite ?Eab, ?Ebc by lia; cbn [big_sum]; ring.
Qed.

(** X19: The matrix built from the scalar 1 is neutral for multiplication on
    both sides. *)
Theorem mat_mul_identity (N M : nat) (a : mat N M) :
  1 <= N <= 4 -> 1 <= M <= 4 ->
  (id <- mat_of_scale M M one ;; mat_mul a id) = Ok a /\
  (id <- mat_of_scale N N one ;; mat_mul id a) = Ok a.
Proof.
  intros HN HM.
  destruct (mat_identity_entries one HM) as (idM & HidM & EM).
  destruct (mat_identity_entries one HN) as (idN & HidN & EN).
  destruct (mat_mul_entries a idM HN HM) as (l & Hl & El).
  destruct (mat_mul_entries idN a HN HN) as (r & Hr & Er).
  rewrite HidM, HidN. simpl. rewrite Hl, Hr.
  split; f_equal; apply mat_ext; try assumption; intros j i Hj Hi.
  - rewrite El by assumption.
    dim_cases M; cbn [big_sum]; rewrite !EM;
      destruct j as [|[|[|[|j]]]]; try lia; simpl; ring.
  - rewrite Er by assumption.
    dim_cases N; cbn [big_sum]; rewrite !EN;
      destruct i as [|[|[|[|i]]]]; try lia; simpl; ring.
Qed.

(** X20: The transpose of a product is the product of the transposes in the
    opposite order. *)
Theorem transpose_mul (N M K : nat) (a : mat N M) (b : mat M K) :
  1 <= N <= 4 -> 1 <= M <= 4 -> 1 <= K <= 4 ->
  (ab <- mat_mul a b ;; transpose ab) =
  (tb <- transpose b ;; ta <- transpose a ;; mat_mul tb ta).
Proof.
  intros HN HM HK.
  destruct (mat_mul_entries a b HN HM) as (ab & Hab & Eab).
  destruct (transpose_entries ab HN HK) as (l & Hl & El).
  destruct (transpose_entries a HN HM) as (ta & Hta & Eta).
  destruct (transpose_entries b HM HK) as (tb & Htb & Etb).
  destruct (mat_mul_entries tb ta HK HM) as (r & Hr & Er).
  rewrite Hab, Hta, Htb. simpl. rewrite Hl, Hr. f_equal.
  apply mat_ext; [assumption|]. intros c i Hc Hi.
  rewrite El, Eab, Er by assumption.
  dim_cases M; cbn [big_sum]; rewrite ?Eta, ?Etb by lia; ring.
Qed.

(** X21: The trace is the sum of the diagonal and is unchanged by
    transposition; over a commutative ring the trace of a product does not
    depend on the order of the factors. *)
Theorem trace_spec (N M : nat) (m : mat N N) (a : mat N M) (b : mat M N) :
  1 <= N <= 4 -> 1 <= M <= 4 ->
  trace m = Ok (big_sum N (fun i => entry m i i)) /\
  (t <- transpose m ;; trace t) = trace m /\
  (ab <- mat_mul a b ;; trace ab) = (ba <- mat_mul b a ;; trace ba).
Proof.
  intros HN HM. split; [now apply trace_sum|]. split.
  - destruct (transpose_entries m HN HN) as (t & Ht & Et).
    rewrite Ht. simpl. rewrite !trace_sum by assumption. f_equal.
    dim_cases N; cbn [big_sum]; rewrite ?Et by lia; reflexivity.
  - destruct (mat_mul_entries a b HN HM) as (ab & Hab & Eab).
    destruct (mat_mul_entries b a HM HN) as (ba & Hba & Eba).
    rewrite Hab, Hba. simpl. rewrite !trace_sum by assumption. f_equal.
    dim_cases N; dim_cases M; cbn [big_sum];
      rewrite ?Eab, ?Eba by lia; cbn [big_sum]; ring.
Qed.

(** X22: The product of a matrix and a vector has the sums of products as
    components; over a commutative ring, applying a product of matrices is
    applying the factors one after the other. *)
Theorem mat_mul_vec_spec (N M K : nat)
    (a : mat N M) (b : mat M K) (u : vec M) (v : vec K) :
  1 <= N <= 4 -> 1 <= M <= 4 -> 1 <= K <= 4 ->
  (exists p, mat_mul_vec a u = Ok p /\
     forall i, i < N ->
       vec_at p i = big_sum M (fun k => mul (entry a k i) (vec_at u k))) /\
  (ab <- mat_mul a b ;; mat_mul_vec ab v) =
  (bv <- mat_mul_vec b v ;; mat_mul_vec a bv).
Proof.
  intros HN HM HK. split; [now apply mat_mul_vec_entries|].
  destruct (mat_mul_entries a b HN HM) as (ab & Hab & Eab).
  destruct (mat_mul_vec_entries ab v HN HK) as (l & Hl & El).
  destruct (mat_mul_vec_entries b v HM HK) as (bv & Hbv & Ebv).
  destruct (mat_mul_vec_entries a bv HN HM) as (r & Hr & Er).
  rewrite Hab, Hbv. simpl. rewrite Hl, Hr. f_equal.
  apply vec_ext; [assumption|]. intros i Hi.
  rewrite El, Er by assumption.
  dim_cases M; dim_cases K; cbn [big_sum];
    rewrite ?Eab, ?Ebv by lia; cbn [big_sum]; ring.
Qed.

(** ** Determinants and builders *)

(** X23: Over a commutative ring, the 2-by-2 and 3-by-3 determinants are
    multiplicative and unchanged by transposition. *)
Theorem determinant_product :
  (forall a b : mat 2 2,
     (ab <- mat_mul a b ;; determinant_2 ab) =
     (da <- determinant_2 a ;; db <- determinant_2 b ;; Ok (mul da db)) /\
     (t <- transpose a ;; determinant_2 t) = determinant_2 a) /\
  (forall a b : mat 3 3,
     (ab <- mat_mul a b ;; determinant_3 ab) =
     (da <- determinant_3 a ;; db <- determinant_3 b ;; Ok (mul da db)) /\
     (t <- transpose a ;; determinant_3 t) = determinant_3 a).
Proof.
  split; intros a b; mat_cases a; mat_cases b; split; run; f_equal; ring.
Qed.

(** X24: Multiplying by the cross-product matrix of [v] is taking the cross
    product with [v], and the matrix is skew-symmetric. *)
Theorem cross_matrix_spec (v u : vec 3) :
  (k <- cross_matrix v ;; mat_mul_vec k u) = cross v u /\
  (k <- cross_matrix v ;; transpose k) = (k <- cross_matrix v ;; mat_neg k).
Proof.
  vec_cases v. vec_cases u. split.
  - run. do 2 f_equal; ring.
  - run. repeat f_equal; ring.
Qed.

(** X25: Translations compose by adding their vectors. *)
Theorem translation_compose (N : nat) (u v : vec N) :
  1 <= N <= 3 ->
  (tu <- translation u ;; tv <- translation v ;; mat_mul tu tv) =
  (s <- vec_add u v ;; translation s).
Proof.
  intros HN.
  destruct N as [|[|[|[|N]]]]; try lia; vec_cases u; vec_cases v;
    run; componentwise; ring.
Qed.

(** X26: [scale] is the diagonal matrix of the vector followed by 1; applied to
    a point in homogeneous coordinates it multiplies the coordinates by the
    components of the vector. *)
Theorem scale_spec (N : nat) (v : vec N) :
  1 <= N <= 3 ->
  exists s, scale v = Ok s /\
    (forall c r, c <= N -> r <= N ->
       entry s c r =
       if c =? r then (if c <? N then vec_at v c else one) else zero) /\
    (forall p : vec N,
       (hp <- vec_of (N + 1) (components p ++ [one]) ;; mat_mul_vec s hp) =
       (vp <- vec_mul v p ;; vec_of (N + 1) (components vp ++ [one]))).
Proof.
  intros HN.
  destruct N as [|[|[|[|N]]]]; try lia; vec_cases v;
    (eexists; split; [run; reflexivity|]; split;
     [ intros col row Hc Hr;
       destruct col as [|[|[|[|col]]]]; try lia;
       destruct row as [|[|[|[|row]]]]; try lia; reflexivity
     | intros p; vec_cases p; run; do 2 f_equal; ring ]).
Qed.

Section RotationProperties.

Variable cos : T -> T.
Variable sin : T -> T.

(** X27: Over a commutative ring, the rotation about an axis leaves the axis
    where it is, whatever the angle. *)
Theorem rotation_axis_angle_fixes_axis (axis : vec 3) (angle : T) :
  (r <- rotation_axis_angle cos sin axis angle ;;
   p <- vec_of 4 [x axis : T; y axis : T; z axis : T; one] ;;
   mat_mul_vec r p) =
  vec_of 4 [x axis : T; y axis : T; z axis : T; one].
Proof.
  vec_cases axis. run. do 2 f_equal; ring.
Qed.

(** When [cos] and [sin] of the angle have squares that add up to 1, the
    rotation of the plane is an orthogonal matrix of determinant 1. *)
Theorem rotation_2d_orthogonal (angle : T) :
  add (mul (cos angle) (cos angle)) (mul (sin angle) (sin angle)) = one ->
  exists r,
    rotation_2d cos sin angle = Ok r /\
    (t <- transpose r ;; mat_mul t r) = mat_of_scale 3 3 one /\
    determinant_3 r = Ok one.
Proof.
  intros Htrig.
  eexists. split; [run; reflexivity|].
  split; run; componentwise;
    first [ ring | (etransitivity; [|exact Htrig]); ring ].
Qed.

(** A versor built from an axis of unit norm has unit norm, when [cos] and
    [sin] of the half angle have squares that add up to 1. *)
Theorem versor_unit (axis : vec 3) (angle : T) :
  norm_squared axis = Ok one ->
  (let half_angle := mul (div one two) angle in
   add (mul (sin half_angle) (sin half_angle))
       (mul (cos half_angle) (cos half_angle)) = one) ->
  exists q, versor cos sin axis angle = Ok q /\ norm_squared q = Ok one.
Proof.
  vec_cases axis. rewrite norm_squared_3.
  intros Haxis Htrig. inversion Haxis as [Hn]. clear Haxis. simpl in Htrig.
  eexists. split; [run; reflexivity|].
  rewrite norm_squared_4. f_equal.
  set (h := mul (div one two) angle) in *.
  transitivity
    (add (mul (mul (sin h) (sin h))
            (add (add (add zero (mul a a)) (mul b b)) (mul c c)))
         (mul (cos h) (cos h))).
  - subst h. unfold two. ring.
  - rewrite Hn. etransitivity; [|exact Htrig]. ring.
Qed.

End RotationProperties.

End RingProperties.

(** ** Division *)

Section FieldProperties.

Hypothesis Tfield :
  field_theory zero one add mul sub opp div (fun a => div one a) eq.

Add Field T_field : Tfield.

(** What [inverse_2] returns: the adjugate divided by
    [m00 * m11 - m01 * m11]. *)
Lemma inverse_2_value (m00 m01 m10 m11 : T) :
  let det := sub (mul m00 m11) (mul m01 m11) in
  inverse_2
    (mat_of_columns (C := 2)
       (mk_vec 2 m00 m01 (burn 2) (burn 3),
        (mk_vec 2 m10 m11 (burn 2) (burn 3), tt))) =
  Ok (mat_of_columns (C := 2)
        (mk_vec 2 (div m11 det) (div (opp m01) det) (burn 2) (burn 3),
         (mk_vec 2 (div (opp m10) det) (div m00 det) (burn 2) (burn 3), tt))).
Proof. reflexivity. Qed.

(** Dividing the adjugate by the determinant that [determinant_2] computes
    does give a left inverse. *)
Lemma adjugate_over_determinant_2 (m00 m01 m10 m11 det : T) :
  let m := mat_of_columns (C := 2)
             (mk_vec 2 m00 m01 (burn 2) (burn 3),
              (mk_vec 2 m10 m11 (burn 2) (burn 3), tt)) in
  let adjugate := mat_of_columns (C := 2)
             (mk_vec 2 m11 (opp m01) (burn 2) (burn 3),
              (mk_vec 2 (opp m10) m00 (burn 2) (burn 3), tt)) in
  determinant_2 m = Ok det -> det <> zero ->
  (i <- mat_div adjugate det ;; mat_mul i m) = mat_of_scale 2 2 one.
Proof.
  intros m adjugate Hdet Hnz. subst m adjugate.
  inversion Hdet as [Hd]. clear Hdet.
  subst det. run. repeat f_equal; field; exact Hnz.
Qed.

(** X12: Projection onto a vector whose dot product with itself is not zero:
    what is left of [v] after removing its projection is orthogonal to the
    axis, and the axis projects onto itself. *)
Theorem projection_spec (N : nat) (v axis : vec N) (den : T) :
  1 <= N <= 4 -> dot axis axis = Ok den -> den <> zero ->
  exists p rest,
    projection v axis = Ok p /\
    vec_sub v p = Ok rest /\ dot rest axis = Ok zero /\
    projection axis axis = Ok axis.
Proof.
  intros HN Hden Hnz.
  dim_cases N; vec_cases v; vec_cases axis;
    cbv -[zero one add mul sub div opp] in Hden;
    inversion Hden as [Hd]; clear Hden; subst den;
    (do 2 eexists;
     split; [run; reflexivity|]; split; [run; reflexivity|];
     split; run; repeat f_equal; field;
     intros Hc; apply Hnz;
     first [ (etransitivity; [|exact Hc]); ring | rewrite Hc; ring ]).
Qed.

(** X13: The reciprocal of a vector without zero component multiplies with it,
    component by component, to the vector of ones. *)
Theorem reciprocal_spec (N : nat) (v : vec N) :
  1 <= N <= 4 -> (forall i, i < N -> vec_at v i <> zero) ->
  exists r, reciprocal v = Ok r /\ vec_mul v r = vec_of_scale N one.
Proof.
  intros HN Hnz.
  dim_cases N; vec_cases v;
    (eexists; split; [run; reflexivity|]; run; repeat f_equal; field;
     first [ exact (Hnz 0 ltac:(lia)) | exact (Hnz 1 ltac:(lia))
           | exact (Hnz 2 ltac:(lia)) | exact (Hnz 3 ltac:(lia)) ]).
Qed.

(** X14: The inverse of a quaternion whose squared norm is not zero is a
    two-sided inverse for the Hamilton product. *)
Theorem quat_inverse_spec (q : quat) (n : T) :
  norm_squared q = Ok n -> n <> zero ->
  exists qi,
    quat_inverse q = Ok qi /\
    quat_mul qi q = quat_of zero zero zero one /\
    quat_mul q qi = quat_of zero zero zero one.
Proof.
  vec_cases q. rewrite norm_squared_4. intros Hn Hnz.
  inversion Hn as [Hd]. clear Hn. subst n.
  eexists. split; [run; reflexivity|].
  split; run; repeat f_equal; field;
    intros Hc; apply Hnz; (etransitivity; [|exact Hc]); ring.
Qed.

(** X15: The orthographic projection of a box with distinct opposite faces sends
    the corner [(left, bottom, -near)] to [(-1, -1, -1)] and the corner
    [(right, up, -far)] to [(1, 1, 1)]. *)
Theorem ortho_corners (left right bottom up near far : T) :
  sub right left <> zero -> sub up bottom <> zero -> sub far near <> zero ->
  exists m,
    ortho left right bottom up near far = Ok m /\
    (p <- vec_of 4 [left; bottom; opp near; one] ;; mat_mul_vec m p) =
    vec_of 4 [opp one; opp one; opp one; one] /\
    (p <- vec_of 4 [right; up; opp far; one] ;; mat_mul_vec m p) =
    vec_of 4 [one; one; one; one].
Proof.
  intros Hx Hy Hz.
  eexists. split; [run; reflexivity|].
  split; run; repeat f_equal; unfold two; field; assumption.
Qed.

(** ** Elimination without pivoting *)

Lemma mul_nonzero (a b : T) : a <> zero -> b <> zero -> mul a b <> zero.
Proof.
  intros Ha Hb Hab. apply Hb.
  transitivity (div (mul a b) a); [field; exact Ha|].
  rewrite Hab. field. exact Ha.
Qed.

(** Denominators that are, up to the ring laws, a hypothesis or a product
    of two hypotheses. *)
Ltac nonzero :=
  repeat split;
  first
    [ match goal with
      | H : ?e <> zero |- _ <> zero =>
          let Hc := fresh "Hc" in
          intros Hc; apply H;
          first [ exact Hc | (etransitivity; [|exact Hc]); ring ]
      end
    | match goal with
      | H1 : ?e1 <> zero, H2 : ?e2 <> zero |- _ <> zero =>
          let Hc := fresh "Hc" in
          intros Hc; apply (mul_nonzero H1 H2);
          (etransitivity; [|exact Hc]); ring
      end ].

(** X28: The row echelon form of a 4-by-4 matrix whose leading principal minors
    of order 1, 2 and 3 are not zero has zeros below the diagonal and keeps
    the first row. *)
Theorem row_echelon_form_spec (m : mat 4 4) (d3 : T) :
  entry m 0 0 <> zero ->
  sub (mul (entry m 0 0) (entry m 1 1)) (mul (entry m 0 1) (entry m 1 0))
    <> zero ->
  determinant_3 (minor_4 m 3 3) = Ok d3 -> d3 <> zero ->
  exists ref, row_echelon_form m = Ok ref /\
    (forall c r, c < r -> r < 4 -> entry ref c r = zero) /\
    (forall c, c < 4 -> entry ref c 0 = entry m c 0).
Proof.
  mat_cases m. intros H0 H1 Hd H2.
  cbv -[zero one add mul sub div opp not] in H0, H1, Hd.
  inversion Hd as [Hd']. clear Hd. subst d3.
  eexists. split; [run; reflexivity|]. split.
  - intros col row Hc Hr.
    destruct row as [|[|[|[|row]]]]; try lia;
      destruct col as [|[|[|[|col]]]]; try lia; run; field; nonzero.
  - intros col Hc. destruct col as [|[|[|[|col]]]]; try lia; reflexivity.
Qed.

(** X29: The generic determinant, the product of the diagonal of the row echelon
    form, is the cofactor expansion on every 4-by-4 matrix whose leading
    principal minors of order 1, 2 and 3 are not zero. *)
Theorem determinant_N_spec (m : mat 4 4) (d3 : T) :
  entry m 0 0 <> zero ->
  sub (mul (entry m 0 0) (entry m 1 1)) (mul (entry m 0 1) (entry m 1 0))
    <> zero ->
  determinant_3 (minor_4 m 3 3) = Ok d3 -> d3 <> zero ->
  determinant_N m = determinant_4 m.
Proof.
  mat_cases m. cbv -[zero one add mul sub div opp not]. intros H0 H1 Hd H2.
  inversion Hd as [Hd']. clear Hd. subst d3.
  f_equal. field. nonzero.
Qed.

(** X30: Gauss-Jordan elimination returns a two-sided inverse: on a 3-by-3 matrix
    whose leading principal minors of order 1 and 2 and whose determinant
    are not zero, and on a 4-by-4 matrix whose leading principal minors of
    order 1, 2 and 3 and whose determinant are not zero. *)
Theorem inverse_N_spec :
  (forall (m : mat 3 3) (d : T),
     entry m 0 0 <> zero ->
     sub (mul (entry m 0 0) (entry m 1 1)) (mul (entry m 0 1) (entry m 1 0))
       <> zero ->
     determinant_3 m = Ok d -> d <> zero ->
     (i <- inverse_N m ;; mat_mul i m) = mat_of_scale 3 3 one /\
     (i <- inverse_N m ;; mat_mul m i) = mat_of_scale 3 3 one) /\
  (forall (m : mat 4 4) (d3 d4 : T),
     entry m 0 0 <> zero ->
     sub (mul (entry m 0 0) (entry m 1 1)) (mul (entry m 0 1) (entry m 1 0))
       <> zero ->
     determinant_3 (minor_4 m 3 3) = Ok d3 -> d3 <> zero ->
     determinant_4 m = Ok d4 -> d4 <> zero ->
     (i <- inverse_N m ;; mat_mul i m) = mat_of_scale 4 4 one /\
     (i <- inverse_N m ;; mat_mul m i) = mat_of_scale 4 4 one).
Proof.
  split.
  - intros m d. mat_cases m.
    cbv -[zero one add mul sub div opp not]. intros H0 H1 Hd H2.
    inversion Hd as [Hd']. clear Hd. subst d.
    split; componentwise; field; nonzero.
  - intros m d3 d4. mat_cases m.
    cbv -[zero one add mul sub div opp not]. intros H0 H1 Hd H2 Hd4 H4.
    inversion Hd as [Hd']. clear Hd. subst d3.
    inversion Hd4 as [Hd']. clear Hd4. subst d4.
    pose proof (mul_nonzero H0 H0) as H00.
    pose proof (mul_nonzero H00 H1) as H001.
    pose proof (mul_nonzero H001 H4) as H0014.
    clear H00 H001 H4.
    split; componentwise; field; nonzero.
Qed.

End FieldProperties.

End Properties.

(** ** Converting constructors *)

Section ConversionProperties.

Context {FromT T : Type} {from_scalar : Scalar FromT} {scalar : Scalar T}.

Variable cast : FromT -> T.

Lemma vec_convert_ok (FromN N : nat) (v : @vec FromT FromN) :
  1 <= FromN -> FromN <= N -> N <= 4 ->
  exists r, vec_convert cast N v = Ok r /\
    forall i, vec_at r i = if i <? FromN then cast (vec_at v i) else zero.
Proof.
  intros H1 H2 H3.
  destruct FromN as [|[|[|[|[|FromN]]]]]; try lia;
    destruct N as [|[|[|[|[|N]]]]]; try lia; vec_cases v;
    (eexists; split; [reflexivity|];
     intros i; destruct i as [|[|[|[|[|i]]]]]; reflexivity).
Qed.

(** X5: Converting a vector to a dimension that is at least its own casts the
    components it has and value-initialises the new ones. *)
Theorem vec_convert_spec (FromN N : nat) (v : @vec FromT FromN) :
  1 <= FromN -> FromN <= N -> N <= 4 ->
  exists r, vec_convert cast N v = Ok r /\
    components r = map cast (components v) ++ repeat zero (N - FromN).
Proof.
  intros H1 H2 H3.
  destruct FromN as [|[|[|[|[|FromN]]]]]; try lia;
    destruct N as [|[|[|[|[|N]]]]]; try lia; vec_cases v;
    (eexists; split; reflexivity).
Qed.

(** X6: Converting a matrix to a type with at least as many rows and columns
    casts the entries it has and fills the new rows and columns with
    zeros. *)
Theorem mat_convert_spec (FromR FromC R C : nat)
    (m : @mat FromT FromR FromC) :
  1 <= FromR -> FromR <= R -> R <= 4 -> FromC <= C ->
  exists r, mat_convert cast R C m = Ok r /\
    forall c i, c < C -> i < R ->
      entry r c i =
      if (c <? FromC) && (i <? FromR) then cast (entry m c i) else zero.
Proof.
  intros H1 H2 H3 H4. unfold mat_convert.
  destruct (@for_loop_invariant (@mat T R C)
    (fun n this => forall c i, c < C ->
       entry this c i =
       if (c <? n) && (i <? FromR) then cast (entry m c i) else zero)
    (fun i this =>
       dst <- mat_subscript this i ;;
       src <- mat_subscript m i ;;
       column <- vec_convert cast R (deref src) ;;
       Ok (assign dst column))
    FromC (mat_default R C)) as (r & Hr & Pr).
  - intros c i _. rewrite entry_default. index_cases.
  - intros n this Hn P0.
    assert (HnC : n < C) by lia.
    destruct (mat_subscript_ok this HnC) as (dst & Hdst & _ & Hset).
    destruct (mat_subscript_ok m Hn)
      as (src & Hsrc & Hval & _).
    destruct (@vec_convert_ok FromR R (deref src) H1 H2 H3)
      as (column & Hcolumn & Hat).
    rewrite Hdst. simpl. rewrite Hsrc. simpl. rewrite Hcolumn. simpl.
    eexists. split; [reflexivity|].
    intros c i Hc. unfold entry at 1. rewrite Hset.
    destruct (Nat.eqb_spec c n) as [->|Hcn].
    + rewrite Hat, Hval. unfold entry. index_cases.
    + fold (entry this c i). rewrite (P0 c i Hc). index_cases.
  - rewrite Hr. exists r. split; [reflexivity|].
    intros c i Hc _. apply Pr, Hc.
Qed.

End ConversionProperties.


(** * The definitions at work *)

(** ** Over the integers *)

#[local] Existing Instance Z_scalar.

Lemma Z_ring : ring_theory (@zero Z _) one add mul sub opp eq.
Proof. exact Zth. Qed.

Lemma subscript_spec_witness :
  1 <= 2 <= 4 /\ 1 < 2 /\ 2 <= 2 /\
  (exists r, subscript (Z_vec2 7 9) 1 = Ok r /\
     nth_error (components (Z_vec2 7 9)) 1 = Some (deref r) /\
     forall a : Z,
       components (assign r a) = list_update 1 a (components (Z_vec2 7 9)) /\
       exists r', subscript (assign r a) 1 = Ok r' /\ deref r' = a) /\
  subscript (Z_vec2 7 9) 2 = Fail out_of_range.
Proof.
  split; [lia|]. split; [lia|]. split; [lia|]. split.
  - apply (proj1 (@subscript_spec Z 2 (Z_vec2 7 9) 1 ltac:(lia))). lia.
  - apply (proj2 (@subscript_spec Z 2 (Z_vec2 7 9) 2 ltac:(lia))). lia.
Defined.

Example subscript_past_the_end :
  subscript (Z_vec2 7 9) 2 = Fail out_of_range.
Proof. reflexivity. Qed.

Lemma translation_spec_witness :
  ring_theory (@zero Z _) one add mul sub opp eq /\
  1 <= 3 <= 3 /\
  exists t, translation (Z_vec3 1 2 3) = Ok t /\
    (forall c r, c <= 3 -> r <= 3 ->
       entry t c r =
       if (c =? 3) && (r <? 3) then vec_at (Z_vec3 1 2 3) r
       else if c =? r then one else zero) /\
    (p <- vec_of (3 + 1) (repeat zero 3 ++ [one]) ;; mat_mul_vec t p) =
    vec_of (3 + 1) (components (Z_vec3 1 2 3) ++ [one]).
Proof.
  split; [exact Z_ring|]. split; [lia|].
  apply (@translation_spec Z Z_scalar Z_ring 3 (Z_vec3 1 2 3)). lia.
Defined.

Example translation_123 :
  (t <- translation (Z_vec3 1 2 3) ;; mat_mul_vec t (Z_vec4 0 0 0 1)) =
  Ok (Z_vec4 1 2 3 1).
Proof. reflexivity. Qed.

Lemma mat_mul_spec_witness :
  1 <= 2 <= 4 /\ 1 <= 2 <= 4 /\
  (exists p, mat_mul (Z_mat22 1 2 3 4) (Z_mat22 5 6 7 8) = Ok p /\
     forall i j, i < 2 -> j < 2 ->
       entry p j i =
       big_sum 2 (fun k => mul (entry (Z_mat22 1 2 3 4) k i)
                               (entry (Z_mat22 5 6 7 8) j k))) /\
  (forall a b : mat (T := Z) 2 2,
     exists q, mat_mul_assign a b = Ok q /\
       forall i j, i < 2 -> j < 2 ->
         entry q j i = big_sum 2 (fun k => mul (entry a k i) (entry b j k))).
Proof.
  split; [lia|]. split; [lia|].
  apply (@mat_mul_spec Z Z_scalar 2 2 2 (Z_mat22 1 2 3 4) (Z_mat22 5 6 7 8)); lia.
Defined.

Example mat_mul_22 :
  mat_mul (Z_mat22 1 2 3 4) (Z_mat22 5 6 7 8) = Ok (Z_mat22 23 34 31 46).
Proof. reflexivity. Qed.

Lemma transpose_spec_witness :
  1 <= 2 <= 4 /\ 1 <= 2 <= 4 /\
  exists t : mat 2 2, transpose (Z_mat22 1 2 3 4) = Ok t /\
    (forall i j, i < 2 -> j < 2 -> entry t i j = entry (Z_mat22 1 2 3 4) j i) /\
    transpose t = Ok (Z_mat22 1 2 3 4).
Proof.
  split; [lia|]. split; [lia|].
  apply (@transpose_spec Z Z_scalar 2 2 (Z_mat22 1 2 3 4)); lia.
Defined.

Example transpose_22 :
  transpose (Z_mat22 1 2 3 4) = Ok (Z_mat22 1 3 2 4).
Proof. reflexivity. Qed.

Lemma quat_mul_norm_witness :
  ring_theory (@zero Z _) one add mul sub opp eq /\
  norm_squared (Z_vec4 0 1 0 0) = Ok one /\
  norm_squared (Z_vec4 0 0 1 0) = Ok one /\
  (exists pq np nq,
     quat_mul (Z_vec4 0 1 0 0) (Z_vec4 0 0 1 0) = Ok pq /\
     norm_squared (Z_vec4 0 1 0 0) = Ok np /\
     norm_squared (Z_vec4 0 0 1 0) = Ok nq /\
     norm_squared pq = Ok (mul np nq)) /\
  (exists pq,
     quat_mul (Z_vec4 0 1 0 0) (Z_vec4 0 0 1 0) = Ok pq /\
     norm_squared pq = Ok one).
Proof.
  split; [exact Z_ring|]. split; [reflexivity|]. split; [reflexivity|].
  split.
  - apply (proj1 (@quat_mul_norm Z Z_scalar Z_ring
                    (Z_vec4 0 1 0 0) (Z_vec4 0 0 1 0))).
  - apply (proj2 (@quat_mul_norm Z Z_scalar Z_ring
                    (Z_vec4 0 1 0 0) (Z_vec4 0 0 1 0))); reflexivity.
Defined.

Example quat_mul_j_k :
  quat_mul (Z_vec4 0 1 0 0) (Z_vec4 0 0 1 0) = Ok (Z_vec4 1 0 0 0).
Proof. reflexivity. Qed.

Lemma quat_mul_vec_norm_witness :
  ring_theory (@zero Z _) one add mul sub opp eq /\
  norm_squared (Z_vec4 0 0 1 0) = Ok one /\
  exists qv nv,
    quat_mul_vec (Z_vec4 0 0 1 0) (Z_vec3 1 2 3) = Ok qv /\
    norm_squared (Z_vec3 1 2 3) = Ok nv /\
    norm_squared qv = Ok nv.
Proof.
  split; [exact Z_ring|]. split; [reflexivity|].
  apply (@quat_mul_vec_norm Z Z_scalar Z_ring (Z_vec4 0 0 1 0) (Z_vec3 1 2 3)).
  reflexivity.
Defined.

Example quat_mul_vec_half_turn :
  quat_mul_vec (Z_vec4 0 0 1 0) (Z_vec3 1 2 3) = Ok (Z_vec3 (-1) (-2) 3).
Proof. reflexivity. Qed.

Lemma determinant_3_spec_witness :
  ring_theory (@zero Z _) one add mul sub opp eq /\
  0 < 3 /\ 2 < 3 /\ 0 <> 2 /\
  (forall c, c < 3 -> entry m_equal_rows c 0 = entry m_equal_rows c 2) /\
  (exists id, mat_of_scale 3 3 (@one Z _) = Ok id /\
     determinant_3 id = Ok one) /\
  determinant_3 m_equal_rows = Ok zero.
Proof.
  assert (Hrows : forall c, c < 3 ->
            entry m_equal_rows c 0 = entry m_equal_rows c 2).
  { intros c Hc. destruct c as [|[|[|c]]]; try reflexivity. lia. }
  split; [exact Z_ring|]. split; [lia|]. split; [lia|]. split; [lia|].
  split; [exact Hrows|]. split.
  - apply (proj1 (@determinant_3_spec Z Z_scalar Z_ring)).
  - apply (proj2 (@determinant_3_spec Z Z_scalar Z_ring) m_equal_rows 0 2);
      [lia|lia|lia|exact Hrows].
Defined.

Example determinant_3_equal_rows : determinant_3 m_equal_rows = Ok 0%Z.
Proof. reflexivity. Qed.

Lemma mat_of_scale_spec_witness :
  1 <= 2 <= 4 /\ 2 < 3 /\ mat_of_scale 2 3 5%Z = Fail terminate /\
  1 <= 3 <= 4 /\ 2 <= 3 /\
  exists m, mat_of_scale 3 2 5%Z = Ok m /\
    forall c r, c < 2 -> r < 3 -> entry m c r = if c =? r then 5%Z else zero.
Proof.
  split; [lia|]. split; [lia|]. split.
  - apply (proj2 (@mat_of_scale_spec Z Z_scalar 2 3 5%Z ltac:(lia))). lia.
  - split; [lia|]. split; [lia|].
    apply (proj1 (@mat_of_scale_spec Z Z_scalar 3 2 5%Z ltac:(lia))). lia.
Defined.

Example mat_of_scale_wide : mat_of_scale 2 3 5%Z = Fail terminate.
Proof. reflexivity. Qed.

Example mat_of_scale_tall :
  mat_of_scale 3 2 5%Z =
  Ok (mat_of_columns (C := 2) (Z_vec3 5 0 0, (Z_vec3 0 5 0, tt))).
Proof. reflexivity. Qed.

(** *** Vector operators *)

Lemma vec_operators_componentwise_witness :
  1 <= 2 <= 4 /\
  (exists r, vec_add (Z_vec2 1 2) (Z_vec2 3 4) = Ok r /\
     forall i, i < 2 ->
       vec_at r i = add (vec_at (Z_vec2 1 2) i) (vec_at (Z_vec2 3 4) i)) /\
  (exists r, vec_sub (Z_vec2 1 2) (Z_vec2 3 4) = Ok r /\
     forall i, i < 2 ->
       vec_at r i = sub (vec_at (Z_vec2 1 2) i) (vec_at (Z_vec2 3 4) i)) /\
  (exists r, vec_mul (Z_vec2 1 2) (Z_vec2 3 4) = Ok r /\
     forall i, i < 2 ->
       vec_at r i = mul (vec_at (Z_vec2 1 2) i) (vec_at (Z_vec2 3 4) i)) /\
  (forall i, i < 2 -> vec_at (Z_vec2 3 4) i <> 0%Z) /\
  (exists r, vec_quot (Z_vec2 1 2) (Z_vec2 3 4) = Ok r /\
     forall i, i < 2 ->
       vec_at r i = div (vec_at (Z_vec2 1 2) i) (vec_at (Z_vec2 3 4) i)).
Proof.
  assert (Hnz : forall i, i < 2 -> vec_at (Z_vec2 3 4) i <> 0%Z).
  { intros i Hi. destruct i as [|[|i]]; [discriminate|discriminate|lia]. }
  destruct (@vec_operators_componentwise Z Z_scalar 2 (Z_vec2 1 2) (Z_vec2 3 4)
              ltac:(lia)) as (Hadd & Hsub & Hmul & Hquot).
  split; [lia|]. split; [exact Hadd|]. split; [exact Hsub|].
  split; [exact Hmul|]. split; [exact Hnz|exact (Hquot Hnz)].
Defined.

Example vec_quot_truncates :
  vec_quot (Z_vec2 7 (-7)) (Z_vec2 2 2) = Ok (Z_vec2 3 (-3)).
Proof. reflexivity. Qed.

Lemma vec_scalar_operators_componentwise_witness :
  1 <= 3 <= 4 /\
  (exists r, vec_scale (Z_vec3 1 2 3) 5%Z = Ok r /\
     scale_vec 5%Z (Z_vec3 1 2 3) = Ok r /\
     forall i, i < 3 -> vec_at r i = mul (vec_at (Z_vec3 1 2 3) i) 5%Z) /\
  5%Z <> 0%Z /\
  (exists r, vec_div (Z_vec3 1 2 3) 5%Z = Ok r /\
     forall i, i < 3 -> vec_at r i = div (vec_at (Z_vec3 1 2 3) i) 5%Z) /\
  (exists r, vec_neg (Z_vec3 1 2 3) = Ok r /\
     forall i, i < 3 -> vec_at r i = opp (vec_at (Z_vec3 1 2 3) i)).
Proof.
  assert (Hnz : 5%Z <> 0%Z) by discriminate.
  destruct (@vec_scalar_operators_componentwise Z Z_scalar 3 (Z_vec3 1 2 3) 5%Z
              ltac:(lia)) as (Hscale & Hdiv & Hneg).
  split; [lia|]. split; [exact Hscale|]. split; [exact Hnz|].
  split; [exact (Hdiv Hnz)|exact Hneg].
Defined.

Lemma vec_to_bool_spec_witness :
  1 <= 3 <= 4 /\
  vec_to_bool Z_truthy (Z_vec3 0 0 7) =
  Ok (existsb Z_truthy (components (Z_vec3 0 0 7))).
Proof.
  split; [lia|].
  apply (@vec_to_bool_spec Z Z_truthy 3 (Z_vec3 0 0 7)). lia.
Defined.

Example vec_to_bool_one_component :
  vec_to_bool Z_truthy (Z_vec3 0 0 7) = Ok true /\
  vec_to_bool Z_truthy (Z_vec3 0 0 0) = Ok false.
Proof. split; reflexivity. Qed.

Lemma vec_eq_spec_witness :
  (forall a b : Z, Z.eqb a b = true <-> a = b) /\ 1 <= 2 <= 4 /\
  exists b, vec_eq Z.eqb (Z_vec2 1 2) (Z_vec2 1 3) = Ok b /\
    vec_neq Z.eqb (Z_vec2 1 2) (Z_vec2 1 3) = Ok (negb b) /\
    (b = true <-> Z_vec2 1 2 = Z_vec2 1 3).
Proof.
  split; [exact Z.eqb_eq|]. split; [lia|].
  apply (@vec_eq_spec Z Z.eqb Z.eqb_eq 2 (Z_vec2 1 2) (Z_vec2 1 3)). lia.
Defined.

Lemma dot_spec_witness :
  ring_theory (@zero Z _) one add mul sub opp eq /\ 1 <= 3 <= 4 /\
  dot (Z_vec3 1 2 3) (Z_vec3 4 5 6) =
  Ok (big_sum 3 (fun i => mul (vec_at (Z_vec3 1 2 3) i)
                              (vec_at (Z_vec3 4 5 6) i))) /\
  dot (Z_vec3 4 5 6) (Z_vec3 1 2 3) = dot (Z_vec3 1 2 3) (Z_vec3 4 5 6).
Proof.
  split; [exact Z_ring|]. split; [lia|].
  apply (@dot_spec Z Z_scalar Z_ring 3 (Z_vec3 1 2 3) (Z_vec3 4 5 6)). lia.
Defined.

Lemma cross_spec_witness :
  ring_theory (@zero Z _) one add mul sub opp eq /\
  exists c c',
    cross (Z_vec3 1 2 3) (Z_vec3 4 5 6) = Ok c /\
    cross (Z_vec3 4 5 6) (Z_vec3 1 2 3) = Ok c' /\ vec_neg c' = Ok c /\
    dot c (Z_vec3 1 2 3) = Ok zero /\ dot c (Z_vec3 4 5 6) = Ok zero.
Proof.
  split; [exact Z_ring|].
  apply (@cross_spec Z Z_scalar Z_ring (Z_vec3 1 2 3) (Z_vec3 4 5 6)).
Defined.

(** *** Quaternions *)

Lemma conjugate_spec_witness :
  ring_theory (@zero Z _) one add mul sub opp eq /\
  exists c n,
    conjugate (Z_vec4 1 2 3 4) = Ok c /\ conjugate c = Ok (Z_vec4 1 2 3 4) /\
    norm_squared (Z_vec4 1 2 3 4) = Ok n /\
    quat_mul (Z_vec4 1 2 3 4) c = quat_of zero zero zero n /\
    quat_mul c (Z_vec4 1 2 3 4) = quat_of zero zero zero n.
Proof.
  split; [exact Z_ring|].
  apply (@conjugate_spec Z Z_scalar Z_ring (Z_vec4 1 2 3 4)).
Defined.

Lemma quat_mul_assoc_witness :
  ring_theory (@zero Z _) one add mul sub opp eq /\
  (pq <- quat_mul (Z_vec4 1 2 3 4) (Z_vec4 0 1 0 2) ;;
   quat_mul pq (Z_vec4 5 0 1 1)) =
  (qr <- quat_mul (Z_vec4 0 1 0 2) (Z_vec4 5 0 1 1) ;;
   quat_mul (Z_vec4 1 2 3 4) qr).
Proof.
  split; [exact Z_ring|].
  apply (@quat_mul_assoc Z Z_scalar Z_ring).
Defined.

Lemma quat_mul_vec_sandwich_witness :
  ring_theory (@zero Z _) one add mul sub opp eq /\
  norm_squared (Z_vec4 0 0 1 0) = Ok one /\
  (pure <- quat_of 1%Z 2%Z 3%Z zero ;;
   left <- quat_mul (Z_vec4 0 0 1 0) pure ;;
   c <- conjugate (Z_vec4 0 0 1 0) ;;
   quat_mul left c) =
  (r <- quat_mul_vec (Z_vec4 0 0 1 0) (Z_vec3 1 2 3) ;;
   quat_of (x r) (y r) (z r) zero).
Proof.
  split; [exact Z_ring|]. split; [reflexivity|].
  apply (@quat_mul_vec_sandwich Z Z_scalar Z_ring
           (Z_vec4 0 0 1 0) (Z_vec3 1 2 3)).
  reflexivity.
Defined.

(** *** Matrices *)

Lemma outer_product_spec_witness :
  1 <= 2 <= 4 /\ 1 <= 2 <= 4 /\ 1 <= 3 <= 4 /\ 2 = 2 /\ 2 < 3 /\
  (exists m, outer_product (Z_vec2 1 2) (Z_vec2 3 4) = Ok m /\
     forall col row, col < 2 -> row < 2 ->
       entry m col row =
       mul (vec_at (Z_vec2 1 2) row) (vec_at (Z_vec2 3 4) col)) /\
  outer_product (Z_vec3 1 2 3) (Z_vec2 3 4) = Fail terminate /\
  outer_product (Z_vec2 3 4) (Z_vec3 1 2 3) = Fail undefined.
Proof.
  split; [lia|]. split; [lia|]. split; [lia|]. split; [lia|]. split; [lia|].
  split; [|split].
  - apply (proj1 (@outer_product_spec Z Z_scalar 2 2 (Z_vec2 1 2) (Z_vec2 3 4)
                    ltac:(lia) ltac:(lia))).
    reflexivity.
  - apply (proj1 (proj2 (@outer_product_spec Z Z_scalar 3 2
                    (Z_vec3 1 2 3) (Z_vec2 3 4) ltac:(lia) ltac:(lia)))).
    lia.
  - apply (proj2 (proj2 (@outer_product_spec Z Z_scalar 2 3
                    (Z_vec2 3 4) (Z_vec3 1 2 3) ltac:(lia) ltac:(lia)))).
    lia.
Defined.

Lemma mat_operators_entrywise_witness :
  1 <= 2 <= 4 /\
  (exists r, mat_add (Z_mat22 1 2 3 4) (Z_mat22 5 6 7 8) = Ok r /\
     forall c i, c < 2 -> i < 2 ->
       entry r c i =
       add (entry (Z_mat22 1 2 3 4) c i) (entry (Z_mat22 5 6 7 8) c i)) /\
  (exists r, mat_sub (Z_mat22 1 2 3 4) (Z_mat22 5 6 7 8) = Ok r /\
     forall c i, c < 2 -> i < 2 ->
       entry r c i =
       sub (entry (Z_mat22 1 2 3 4) c i) (entry (Z_mat22 5 6 7 8) c i)) /\
  (exists r, mat_scale (Z_mat22 1 2 3 4) 3%Z = Ok r /\
     scale_mat 3%Z (Z_mat22 1 2 3 4) = Ok r /\
     forall c i, c < 2 -> i < 2 ->
       entry r c i = mul (entry (Z_mat22 1 2 3 4) c i) 3%Z) /\
  3%Z <> 0%Z /\
  (exists r, mat_div (Z_mat22 1 2 3 4) 3%Z = Ok r /\
     forall c i, c < 2 -> i < 2 ->
       entry r c i = div (entry (Z_mat22 1 2 3 4) c i) 3%Z) /\
  (exists r, mat_neg (Z_mat22 1 2 3 4) = Ok r /\
     forall c i, c < 2 -> i < 2 ->
       entry r c i = opp (entry (Z_mat22 1 2 3 4) c i)).
Proof.
  assert (Hnz : 3%Z <> 0%Z) by discriminate.
  destruct (@mat_operators_entrywise Z Z_scalar 2 2
              (Z_mat22 1 2 3 4) (Z_mat22 5 6 7 8) 3%Z ltac:(lia))
    as (Hadd & Hsub & Hscale & Hdiv & Hneg).
  split; [lia|]. split; [exact Hadd|]. split; [exact Hsub|].
  split; [exact Hscale|]. split; [exact Hnz|].
  split; [exact (Hdiv Hnz)|exact Hneg].
Defined.

Lemma mat_mul_assoc_witness :
  ring_theory (@zero Z _) one add mul sub opp eq /\
  1 <= 2 <= 4 /\
  (ab <- mat_mul (Z_mat22 1 2 3 4) (Z_mat22 5 6 7 8) ;;
   mat_mul ab (Z_mat22 0 1 1 0)) =
  (bc <- mat_mul (Z_mat22 5 6 7 8) (Z_mat22 0 1 1 0) ;;
   mat_mul (Z_mat22 1 2 3 4) bc).
Proof.
  split; [exact Z_ring|]. split; [lia|].
  apply (@mat_mul_assoc Z Z_scalar Z_ring 2 2 2 2); lia.
Defined.

Example mat_mul_not_commutative :
  mat_mul (Z_mat22 1 2 3 4) (Z_mat22 0 1 1 0) <>
  mat_mul (Z_mat22 0 1 1 0) (Z_mat22 1 2 3 4).
Proof. intros H. cbv in H. discriminate H. Qed.

Lemma mat_mul_identity_witness :
  ring_theory (@zero Z _) one add mul sub opp eq /\
  1 <= 2 <= 4 /\
  (id <- mat_of_scale 2 2 one ;; mat_mul (Z_mat22 1 2 3 4) id) =
  Ok (Z_mat22 1 2 3 4) /\
  (id <- mat_of_scale 2 2 one ;; mat_mul id (Z_mat22 1 2 3 4)) =
  Ok (Z_mat22 1 2 3 4).
Proof.
  split; [exact Z_ring|]. split; [lia|].
  apply (@mat_mul_identity Z Z_scalar Z_ring 2 2 (Z_mat22 1 2 3 4)); lia.
Defined.

Lemma transpose_mul_witness :
  ring_theory (@zero Z _) one add mul sub opp eq /\
  1 <= 2 <= 4 /\
  (ab <- mat_mul (Z_mat22 1 2 3 4) (Z_mat22 5 6 7 8) ;; transpose ab) =
  (tb <- transpose (Z_mat22 5 6 7 8) ;;
   ta <- transpose (Z_mat22 1 2 3 4) ;; mat_mul tb ta).
Proof.
  split; [exact Z_ring|]. split; [lia|].
  apply (@transpose_mul Z Z_scalar Z_ring 2 2 2); lia.
Defined.

Lemma trace_spec_witness :
  ring_theory (@zero Z _) one add mul sub opp eq /\
  1 <= 2 <= 4 /\
  trace (Z_mat22 1 2 3 4) =
  Ok (big_sum 2 (fun i => entry (Z_mat22 1 2 3 4) i i)) /\
  (t <- transpose (Z_mat22 1 2 3 4) ;; trace t) = trace (Z_mat22 1 2 3 4) /\
  (ab <- mat_mul (Z_mat22 1 2 3 4) (Z_mat22 5 6 7 8) ;; trace ab) =
  (ba <- mat_mul (Z_mat22 5 6 7 8) (Z_mat22 1 2 3 4) ;; trace ba).
Proof.
  split; [exact Z_ring|]. split; [lia|].
  apply (@trace_spec Z Z_scalar Z_ring 2 2); lia.
Defined.

Lemma mat_mul_vec_spec_witness :
  ring_theory (@zero Z _) one add mul sub opp eq /\
  1 <= 2 <= 4 /\
  (exists p, mat_mul_vec (Z_mat22 1 2 3 4) (Z_vec2 1 1) = Ok p /\
     forall i, i < 2 ->
       vec_at p i =
       big_sum 2 (fun k => mul (entry (Z_mat22 1 2 3 4) k i)
                               (vec_at (Z_vec2 1 1) k))) /\
  (ab <- mat_mul (Z_mat22 1 2 3 4) (Z_mat22 5 6 7 8) ;;
   mat_mul_vec ab (Z_vec2 9 10)) =
  (bv <- mat_mul_vec (Z_mat22 5 6 7 8) (Z_vec2 9 10) ;;
   mat_mul_vec (Z_mat22 1 2 3 4) bv).
Proof.
  split; [exact Z_ring|]. split; [lia|].
  apply (@mat_mul_vec_spec Z Z_scalar Z_ring 2 2 2); lia.
Defined.

Lemma determinant_product_witness :
  ring_theory (@zero Z _) one add mul sub opp eq /\
  (ab <- mat_mul (Z_mat22 1 2 3 4) (Z_mat22 5 6 7 8) ;; determinant_2 ab) =
  (da <- determinant_2 (Z_mat22 1 2 3 4) ;;
   db <- determinant_2 (Z_mat22 5 6 7 8) ;; Ok (mul da db)) /\
  (t <- transpose m_equal_rows ;; determinant_3 t) =
  determinant_3 m_equal_rows.
Proof.
  split; [exact Z_ring|]. split.
  - apply (proj1 (@determinant_product Z Z_scalar Z_ring)
             (Z_mat22 1 2 3 4) (Z_mat22 5 6 7 8)).
  - apply (proj2 (@determinant_product Z Z_scalar Z_ring)
             m_equal_rows m_equal_rows).
Defined.

Lemma cross_matrix_spec_witness :
  ring_theory (@zero Z _) one add mul sub opp eq /\
  (k <- cross_matrix (Z_vec3 1 2 3) ;; mat_mul_vec k (Z_vec3 4 5 6)) =
  cross (Z_vec3 1 2 3) (Z_vec3 4 5 6) /\
  (k <- cross_matrix (Z_vec3 1 2 3) ;; transpose k) =
  (k <- cross_matrix (Z_vec3 1 2 3) ;; mat_neg k).
Proof.
  split; [exact Z_ring|].
  apply (@cross_matrix_spec Z Z_scalar Z_ring (Z_vec3 1 2 3) (Z_vec3 4 5 6)).
Defined.

Lemma translation_compose_witness :
  ring_theory (@zero Z _) one add mul sub opp eq /\ 1 <= 3 <= 3 /\
  (tu <- translation (Z_vec3 1 2 3) ;;
   tv <- translation (Z_vec3 4 5 6) ;; mat_mul tu tv) =
  (s <- vec_add (Z_vec3 1 2 3) (Z_vec3 4 5 6) ;; translation s).
Proof.
  split; [exact Z_ring|]. split; [lia|].
  apply (@translation_compose Z Z_scalar Z_ring 3). lia.
Defined.

Lemma scale_spec_witness :
  ring_theory (@zero Z _) one add mul sub opp eq /\ 1 <= 2 <= 3 /\
  exists s, scale (Z_vec2 3 5) = Ok s /\
    (forall c r, c <= 2 -> r <= 2 ->
       entry s c r =
       if c =? r then (if c <? 2 then vec_at (Z_vec2 3 5) c else one)
       else zero) /\
    (forall p : @vec Z 2,
       (hp <- vec_of (2 + 1) (components p ++ [one]) ;; mat_mul_vec s hp) =
       (vp <- vec_mul (Z_vec2 3 5) p ;;
        vec_of (2 + 1) (components vp ++ [one]))).
Proof.
  split; [exact Z_ring|]. split; [lia|].
  apply (@scale_spec Z Z_scalar Z_ring 2 (Z_vec2 3 5)). lia.
Defined.

Lemma rotation_axis_angle_fixes_axis_witness :
  ring_theory (@zero Z _) one add mul sub opp eq /\
  (r <- rotation_axis_angle Z_cos Z_sin (Z_vec3 0 0 1) 2%Z ;;
   p <- vec_of 4 [0%Z; 0%Z; 1%Z; one] ;;
   mat_mul_vec r p) =
  vec_of 4 [0%Z; 0%Z; 1%Z; one].
Proof.
  split; [exact Z_ring|].
  apply (@rotation_axis_angle_fixes_axis Z Z_scalar Z_ring Z_cos Z_sin
           (Z_vec3 0 0 1) 2%Z).
Defined.

(** ** Over the rationals *)

#[local] Existing Instance Qc_scalar.

(** C1 (failing case): the matrix with columns (1, 2) and (3, 4) has
    determinant -2, yet [inverse_2] divides the adjugate by
    [m00 * m11 - m01 * m11 = -4]; the product of the result with the matrix
    has 1/2 on its diagonal instead of 1. *)
Theorem inverse_2_not_inverse :
  exists (det : Qc) (i p : mat 2 2),
    determinant_2 m_1234 = Ok det /\ det = Q2Qc (-2) /\
    inverse_2 m_1234 = Ok i /\
    mat_mul i m_1234 = Ok p /\
    entry p 0 0 = Q2Qc (1 # 2) /\ entry p 1 1 = Q2Qc (1 # 2) /\
    entry p 1 0 = Q2Qc 0 /\ entry p 0 1 = Q2Qc 0 /\
    mat_of_scale 2 2 (Q2Qc 1) <> Ok p.
Proof.
  do 3 eexists.
  split; [cbv; reflexivity|].
  split; [apply Qc_is_canon; reflexivity|].
  split; [cbv; reflexivity|].
  split; [cbv; reflexivity|].
  split; [apply Qc_is_canon; reflexivity|].
  split; [apply Qc_is_canon; reflexivity|].
  split; [apply Qc_is_canon; reflexivity|].
  split; [apply Qc_is_canon; reflexivity|].
  intros H.
  assert (Hentry : forall a b : outcome (mat 2 2), a = b ->
            match a, b with
            | Ok ma, Ok mb => this (entry ma 0 0) = this (entry mb 0 0)
            | _, _ => True
            end).
  { intros a b0 ->. destruct b0; [reflexivity|exact I]. }
  apply Hentry in H. cbv in H. discriminate H.
Qed.

Lemma Qc_field :
  field_theory (@zero Qc _) one add mul sub opp div (fun a => div one a) eq.
Proof.
  destruct Qcft as [Hring Hneq Hdiv Hinv].
  constructor.
  - exact Hring.
  - exact Hneq.
  - intros p q. cbn. unfold Qcdiv. now rewrite Qcmult_1_l.
  - intros p Hp. cbn. unfold Qcdiv. rewrite Qcmult_1_l. now apply Hinv.
Qed.

(** With the determinant -2 that [determinant_2] computes, the adjugate of
    [m_1234] over the determinant is its inverse. *)
Example adjugate_over_determinant_2_m_1234 :
  (i <- mat_div
          (Qc_mat22 (Q2Qc 4) (opp (Q2Qc 2)) (opp (Q2Qc 3)) (Q2Qc 1))
          (Q2Qc (-2)) ;;
   mat_mul i m_1234) =
  mat_of_scale 2 2 one.
Proof.
  apply (@adjugate_over_determinant_2 Qc Qc_scalar Qc_field
           (Q2Qc 1) (Q2Qc 2) (Q2Qc 3) (Q2Qc 4) (Q2Qc (-2))).
  - cbv. f_equal; apply Qc_is_canon; reflexivity.
  - intros H. apply (f_equal this) in H. discriminate H.
Qed.

(** *** Division, conversion and elimination over the rationals *)

(** Two canonical rationals differ when their fractions do. *)
Ltac Qc_neq :=
  let H := fresh "H" in
  intros H; apply (f_equal this) in H; vm_compute in H; discriminate H.

(** A result computes to the canonical rational that is expected. *)
Ltac Qc_eq := vm_compute; f_equal; apply Qc_is_canon; reflexivity.

Lemma vec_convert_spec_witness :
  1 <= 2 /\ 2 <= 3 /\ 3 <= 4 /\
  exists r, vec_convert Qc_of_Z 3 (Z_vec2 1 2) = Ok r /\
    components r =
    map Qc_of_Z (components (Z_vec2 1 2)) ++ repeat zero (3 - 2).
Proof.
  split; [lia|]. split; [lia|]. split; [lia|].
  apply (@vec_convert_spec Z Qc Qc_scalar Qc_of_Z 2 3 (Z_vec2 1 2)); lia.
Defined.

Lemma mat_convert_spec_witness :
  1 <= 2 /\ 2 <= 3 /\ 3 <= 4 /\
  exists r, mat_convert Qc_of_Z 3 3 (Z_mat22 1 2 3 4) = Ok r /\
    forall c i, c < 3 -> i < 3 ->
      entry r c i =
      if (c <? 2) && (i <? 2) then Qc_of_Z (entry (Z_mat22 1 2 3 4) c i)
      else zero.
Proof.
  split; [lia|]. split; [lia|]. split; [lia|].
  apply (@mat_convert_spec Z Qc Z_scalar Qc_scalar Qc_of_Z 2 2 3 3
           (Z_mat22 1 2 3 4)); lia.
Defined.

Lemma projection_spec_witness :
  field_theory (@zero Qc _) one add mul sub opp div (fun a => div one a) eq /\
  1 <= 2 <= 4 /\
  dot (Qc_vec2 (Qc_of_Z 3) (Qc_of_Z 4)) (Qc_vec2 (Qc_of_Z 3) (Qc_of_Z 4)) =
  Ok (Qc_of_Z 25) /\
  Qc_of_Z 25 <> zero /\
  exists p rest,
    projection (Qc_vec2 (Qc_of_Z 1) (Qc_of_Z 2))
               (Qc_vec2 (Qc_of_Z 3) (Qc_of_Z 4)) = Ok p /\
    vec_sub (Qc_vec2 (Qc_of_Z 1) (Qc_of_Z 2)) p = Ok rest /\
    dot rest (Qc_vec2 (Qc_of_Z 3) (Qc_of_Z 4)) = Ok zero /\
    projection (Qc_vec2 (Qc_of_Z 3) (Qc_of_Z 4))
               (Qc_vec2 (Qc_of_Z 3) (Qc_of_Z 4)) =
    Ok (Qc_vec2 (Qc_of_Z 3) (Qc_of_Z 4)).
Proof.
  assert (Hden : dot (Qc_vec2 (Qc_of_Z 3) (Qc_of_Z 4))
                     (Qc_vec2 (Qc_of_Z 3) (Qc_of_Z 4)) = Ok (Qc_of_Z 25))
    by Qc_eq.
  assert (Hnz : Qc_of_Z 25 <> zero) by Qc_neq.
  split; [exact Qc_field|]. split; [lia|].
  split; [exact Hden|]. split; [exact Hnz|].
  apply (@projection_spec Qc Qc_scalar Qc_field 2
           (Qc_vec2 (Qc_of_Z 1) (Qc_of_Z 2))
           (Qc_vec2 (Qc_of_Z 3) (Qc_of_Z 4)) (Qc_of_Z 25));
    [lia|exact Hden|exact Hnz].
Defined.

Lemma reciprocal_spec_witness :
  field_theory (@zero Qc _) one add mul sub opp div (fun a => div one a) eq /\
  1 <= 2 <= 4 /\
  (forall i, i < 2 -> vec_at (Qc_vec2 (Qc_of_Z 2) (Qc_of_Z 5)) i <> zero) /\
  exists r, reciprocal (Qc_vec2 (Qc_of_Z 2) (Qc_of_Z 5)) = Ok r /\
    vec_mul (Qc_vec2 (Qc_of_Z 2) (Qc_of_Z 5)) r = vec_of_scale 2 one.
Proof.
  assert (Hnz : forall i, i < 2 ->
            vec_at (Qc_vec2 (Qc_of_Z 2) (Qc_of_Z 5)) i <> zero).
  { intros i Hi. destruct i as [|[|i]]; [Qc_neq|Qc_neq|lia]. }
  split; [exact Qc_field|]. split; [lia|]. split; [exact Hnz|].
  apply (@reciprocal_spec Qc Qc_scalar Qc_field 2
           (Qc_vec2 (Qc_of_Z 2) (Qc_of_Z 5))); [lia|exact Hnz].
Defined.

Lemma quat_inverse_spec_witness :
  field_theory (@zero Qc _) one add mul sub opp div (fun a => div one a) eq /\
  norm_squared (Qc_vec4 (Qc_of_Z 1) (Qc_of_Z 2) (Qc_of_Z 3) (Qc_of_Z 4)) =
  Ok (Qc_of_Z 30) /\
  Qc_of_Z 30 <> zero /\
  exists qi,
    quat_inverse (Qc_vec4 (Qc_of_Z 1) (Qc_of_Z 2) (Qc_of_Z 3) (Qc_of_Z 4)) =
    Ok qi /\
    quat_mul qi (Qc_vec4 (Qc_of_Z 1) (Qc_of_Z 2) (Qc_of_Z 3) (Qc_of_Z 4)) =
    quat_of zero zero zero one /\
    quat_mul (Qc_vec4 (Qc_of_Z 1) (Qc_of_Z 2) (Qc_of_Z 3) (Qc_of_Z 4)) qi =
    quat_of zero zero zero one.
Proof.
  assert (Hn : norm_squared
                 (Qc_vec4 (Qc_of_Z 1) (Qc_of_Z 2) (Qc_of_Z 3) (Qc_of_Z 4)) =
               Ok (Qc_of_Z 30)) by Qc_eq.
  assert (Hnz : Qc_of_Z 30 <> zero) by Qc_neq.
  split; [exact Qc_field|]. split; [exact Hn|]. split; [exact Hnz|].
  apply (@quat_inverse_spec Qc Qc_scalar Qc_field _ (Qc_of_Z 30) Hn Hnz).
Defined.

Lemma ortho_corners_witness :
  field_theory (@zero Qc _) one add mul sub opp div (fun a => div one a) eq /\
  sub (Qc_of_Z 2) (Qc_of_Z 0) <> zero /\
  sub (Qc_of_Z 4) (Qc_of_Z 0) <> zero /\
  sub (Qc_of_Z 3) (Qc_of_Z 1) <> zero /\
  exists m,
    ortho (Qc_of_Z 0) (Qc_of_Z 2) (Qc_of_Z 0) (Qc_of_Z 4)
          (Qc_of_Z 1) (Qc_of_Z 3) = Ok m /\
    (p <- vec_of 4 [Qc_of_Z 0; Qc_of_Z 0; opp (Qc_of_Z 1); one] ;;
     mat_mul_vec m p) =
    vec_of 4 [opp one; opp one; opp one; one] /\
    (p <- vec_of 4 [Qc_of_Z 2; Qc_of_Z 4; opp (Qc_of_Z 3); one] ;;
     mat_mul_vec m p) =
    vec_of 4 [one; one; one; one].
Proof.
  assert (Hx : sub (Qc_of_Z 2) (Qc_of_Z 0) <> zero) by Qc_neq.
  assert (Hy : sub (Qc_of_Z 4) (Qc_of_Z 0) <> zero) by Qc_neq.
  assert (Hz : sub (Qc_of_Z 3) (Qc_of_Z 1) <> zero) by Qc_neq.
  split; [exact Qc_field|].
  split; [exact Hx|]. split; [exact Hy|]. split; [exact Hz|].
  apply (@ortho_corners Qc Qc_scalar Qc_field _ _ _ _ _ _ Hx Hy Hz).
Defined.

Lemma m_band_4_minors :
  entry m_band_4 0 0 <> zero /\
  sub (mul (entry m_band_4 0 0) (entry m_band_4 1 1))
      (mul (entry m_band_4 0 1) (entry m_band_4 1 0)) <> zero /\
  determinant_3 (minor_4 m_band_4 3 3) = Ok (Qc_of_Z 18) /\
  Qc_of_Z 18 <> zero /\
  determinant_4 m_band_4 = Ok (Qc_of_Z 85) /\
  Qc_of_Z 85 <> zero.
Proof.
  split; [Qc_neq|]. split; [Qc_neq|]. split; [Qc_eq|].
  split; [Qc_neq|]. split; [Qc_eq|Qc_neq].
Defined.

Lemma row_echelon_form_spec_witness :
  field_theory (@zero Qc _) one add mul sub opp div (fun a => div one a) eq /\
  entry m_band_4 0 0 <> zero /\
  sub (mul (entry m_band_4 0 0) (entry m_band_4 1 1))
      (mul (entry m_band_4 0 1) (entry m_band_4 1 0)) <> zero /\
  determinant_3 (minor_4 m_band_4 3 3) = Ok (Qc_of_Z 18) /\
  Qc_of_Z 18 <> zero /\
  exists ref, row_echelon_form m_band_4 = Ok ref /\
    (forall c r, c < r -> r < 4 -> entry ref c r = zero) /\
    (forall c, c < 4 -> entry ref c 0 = entry m_band_4 c 0).
Proof.
  destruct m_band_4_minors as (H0 & H1 & Hd & H2 & _ & _).
  split; [exact Qc_field|].
  split; [exact H0|]. split; [exact H1|]. split; [exact Hd|].
  split; [exact H2|].
  apply (@row_echelon_form_spec Qc Qc_scalar Qc_field m_band_4 (Qc_of_Z 18)
           H0 H1 Hd H2).
Defined.

Lemma determinant_N_spec_witness :
  field_theory (@zero Qc _) one add mul sub opp div (fun a => div one a) eq /\
  entry m_band_4 0 0 <> zero /\
  sub (mul (entry m_band_4 0 0) (entry m_band_4 1 1))
      (mul (entry m_band_4 0 1) (entry m_band_4 1 0)) <> zero /\
  determinant_3 (minor_4 m_band_4 3 3) = Ok (Qc_of_Z 18) /\
  Qc_of_Z 18 <> zero /\
  determinant_N m_band_4 = determinant_4 m_band_4.
Proof.
  destruct m_band_4_minors as (H0 & H1 & Hd & H2 & _ & _).
  split; [exact Qc_field|].
  split; [exact H0|]. split; [exact H1|]. split; [exact Hd|].
  split; [exact H2|].
  apply (@determinant_N_spec Qc Qc_scalar Qc_field m_band_4 (Qc_of_Z 18)
           H0 H1 Hd H2).
Defined.

Example determinant_N_m_band_4 : determinant_N m_band_4 = Ok (Qc_of_Z 85).
Proof. Qc_eq. Qed.

Lemma inverse_N_spec_witness :
  field_theory (@zero Qc _) one add mul sub opp div (fun a => div one a) eq /\
  entry m_upper_3 0 0 <> zero /\
  sub (mul (entry m_upper_3 0 0) (entry m_upper_3 1 1))
      (mul (entry m_upper_3 0 1) (entry m_upper_3 1 0)) <> zero /\
  determinant_3 m_upper_3 = Ok (Qc_of_Z 24) /\
  Qc_of_Z 24 <> zero /\
  ((i <- inverse_N m_upper_3 ;; mat_mul i m_upper_3) =
   mat_of_scale 3 3 one /\
   (i <- inverse_N m_upper_3 ;; mat_mul m_upper_3 i) =
   mat_of_scale 3 3 one) /\
  entry m_band_4 0 0 <> zero /\
  sub (mul (entry m_band_4 0 0) (entry m_band_4 1 1))
      (mul (entry m_band_4 0 1) (entry m_band_4 1 0)) <> zero /\
  determinant_3 (minor_4 m_band_4 3 3) = Ok (Qc_of_Z 18) /\
  Qc_of_Z 18 <> zero /\
  determinant_4 m_band_4 = Ok (Qc_of_Z 85) /\
  Qc_of_Z 85 <> zero /\
  (i <- inverse_N m_band_4 ;; mat_mul i m_band_4) = mat_of_scale 4 4 one /\
  (i <- inverse_N m_band_4 ;; mat_mul m_band_4 i) = mat_of_scale 4 4 one.
Proof.
  destruct m_band_4_minors as (H0 & H1 & Hd & H2 & Hd4 & H4).
  assert (G0 : entry m_upper_3 0 0 <> zero) by Qc_neq.
  assert (G1 : sub (mul (entry m_upper_3 0 0) (entry m_upper_3 1 1))
                   (mul (entry m_upper_3 0 1) (entry m_upper_3 1 0))
               <> zero) by Qc_neq.
  assert (Gd : determinant_3 m_upper_3 = Ok (Qc_of_Z 24)) by Qc_eq.
  assert (G2 : Qc_of_Z 24 <> zero) by Qc_neq.
  split; [exact Qc_field|].
  split; [exact G0|]. split; [exact G1|]. split; [exact Gd|].
  split; [exact G2|]. split.
  - apply (proj1 (@inverse_N_spec Qc Qc_scalar Qc_field)
             m_upper_3 (Qc_of_Z 24) G0 G1 Gd G2).
  - split; [exact H0|]. split; [exact H1|]. split; [exact Hd|].
    split; [exact H2|]. split; [exact Hd4|]. split; [exact H4|].
    apply (proj2 (@inverse_N_spec Qc Qc_scalar Qc_field)
             m_band_4 (Qc_of_Z 18) (Qc_of_Z 85) H0 H1 Hd H2 Hd4 H4).
Defined.

(** ** Over binary64 *)

(** The laws of a commutative ring fail on [double]: sums and products are
    rounded.  The runs below evaluate the definitions on binary64 numbers
    and compare the results with [==] of [double] or of the vectors. *)

#[local] Existing Instance binary64_scalar.

(** The determinant of the identity is exactly 1 on [double] as well. *)
Example determinant_3_identity_binary64 :
  (id <- mat_of_scale 3 3 (@one float _) ;; determinant_3 id) = Ok 1%float.
Proof. vm_compute. reflexivity. Qed.

(** C8, for an element type with rounding: rows 0 and 1 of [m_large_entry]
    are equal, and its determinant comes out as -1, not 0.  The sum
    [1e16 + 1] is rounded to [1e16], so the six products of the formula add
    up to -1. *)
Lemma determinant_3_rounds :
  (forall c, c < 3 -> entry m_large_entry c 0 = entry m_large_entry c 1) /\
  determinant_3 m_large_entry = Ok (-1)%float /\
  determinant_3 m_large_entry <> Ok zero.
Proof.
  assert (Hdet : determinant_3 m_large_entry = Ok (-1)%float)
    by (vm_compute; reflexivity).
  split; [|split; [exact Hdet|]].
  - intros c Hc. destruct c as [|[|[|c]]]; try reflexivity. lia.
  - rewrite Hdet. intros H.
    apply (f_equal (fun o => match o with
                             | Ok t => PrimFloat.eqb t (-1)
                             | Fail _ => false
                             end)) in H.
    vm_compute in H. discriminate H.
Qed.

(** A quaternion times its conjugate has a non-zero imaginary part. *)
Example conjugate_rounds :
  (c <- conjugate (float_vec4 0.1 0.2 0.3 0.4) ;;
   p <- quat_mul (float_vec4 0.1 0.2 0.3 0.4) c ;;
   n <- norm_squared (float_vec4 0.1 0.2 0.3 0.4) ;;
   real <- quat_of zero zero zero n ;;
   vec_eq PrimFloat.eqb p real) = Ok false.
Proof. vm_compute. reflexivity. Qed.

(** The squared norm of (0.6, 0, 0, 0.8) is exactly 1, yet the Hamilton
    sandwich of a vector has a real part that is not zero. *)
Example quat_mul_vec_sandwich_rounds :
  norm_squared (float_vec4 0.6 0 0 0.8) = Ok 1%float /\
  (pure <- quat_of 0.1%float 0.2%float 0.3%float zero ;;
   left <- quat_mul (float_vec4 0.6 0 0 0.8) pure ;;
   c <- conjugate (float_vec4 0.6 0 0 0.8) ;;
   sandwich <- quat_mul left c ;;
   r <- quat_mul_vec (float_vec4 0.6 0 0 0.8) (float_vec3 0.1 0.2 0.3) ;;
   direct <- quat_of (x r) (y r) (z r) zero ;;
   vec_eq PrimFloat.eqb sandwich direct) = Ok false.
Proof. split; vm_compute; reflexivity. Qed.

(** The trace of a product depends on the order of the factors. *)
Example trace_mul_rounds :
  float_results_equal
    (ab <- mat_mul m_tenths_a m_tenths_b ;; trace ab)
    (ba <- mat_mul m_tenths_b m_tenths_a ;; trace ba) = Ok false.
Proof. vm_compute. reflexivity. Qed.

(** Applying a product of matrices differs from applying its factors. *)
Example mat_mul_vec_rounds :
  (ab <- mat_mul m_tenths_a m_tenths_b ;;
   l <- mat_mul_vec ab (float_vec2 1 1) ;;
   bv <- mat_mul_vec m_tenths_b (float_vec2 1 1) ;;
   r <- mat_mul_vec m_tenths_a bv ;;
   vec_eq PrimFloat.eqb l r) = Ok false.
Proof. vm_compute. reflexivity. Qed.

(** The determinant of a product differs from the product of the
    determinants. *)
Example determinant_product_rounds :
  float_results_equal
    (ab <- mat_mul m_tenths_a m_tenths_b ;; determinant_2 ab)
    (da <- determinant_2 m_tenths_a ;;
     db <- determinant_2 m_tenths_b ;; Ok (mul da db)) = Ok false.
Proof. vm_compute. reflexivity. Qed.

(** A rotation moves its own axis. *)
Example rotation_axis_angle_rounds :
  (r <- rotation_axis_angle (fun _ => 0.1%float) (fun _ => 0.3%float)
          (float_vec3 0.1 0.7 0.9) 1%float ;;
   p <- vec_of 4 [0.1%float; 0.7%float; 0.9%float; one] ;;
   moved <- mat_mul_vec r p ;;
   vec_eq PrimFloat.eqb moved p) = Ok false.
Proof. vm_compute. reflexivity. Qed.

(** [axis_angle] on [double], whatever [std::atan2] returns: the imaginary
    part (3, 0, 4) has norm 5, and the identity rotation has no axis. *)
Example axis_angle_binary64 (atan2 : float -> float -> float) :
  axis_angle PrimFloat.sqrt float_epsilon PrimFloat.leb (fun d => d) atan2
    (PrimFloat.mul 2) (float_vec4 3 0 4 12) =
  Ok (float_vec3 0.6 0 0.8, PrimFloat.mul 2 (atan2 5%float 12%float)) /\
  axis_angle PrimFloat.sqrt float_epsilon PrimFloat.leb (fun d => d) atan2
    (PrimFloat.mul 2) (float_vec4 0 0 0 1) =
  Ok (float_vec3 0 0 0, 0%float).
Proof. split; vm_compute; reflexivity. Qed.
